(** * continuity: spectral resizing of the Fourier layer and the training loop

    A shallow embedding of
    - the spectral resize operations of [continuity.operators.fourierlayer]
      ([_zero_padding], [_remove_large_frequencies]) as exercised by
      [tests/operators/test_fourierlayer.py],
    - [continuity.operators.losses.MSELoss],
    - [continuity.trainer.trainer.Trainer] ([__init__] and [fit]),
    - [continuity.operators.cnn.ConvolutionalNeuralNetwork.__init__],
    - the parameter log and the training call of
      [continuity.benchmarks.run.runner.BenchmarkRunner.run].  *)

From stdpp Require Import base list strings.
From Stdlib Require Import QArith.

Local Open Scope nat_scope.

(** ** Spectral tensors and their resizing *)

Module Spectral.

(** A tensor of rank [r] is a list nested [r] times; axis 0 is the outermost
    list. *)
Fixpoint tensor (A : Type) (r : nat) : Type :=
  match r with
  | 0 => A
  | S r' => list (tensor A r')
  end.

(** [t.shape]: the length of every axis, read along the first entries. *)
Fixpoint shape {A : Type} (r : nat) : tensor A r → list nat :=
  match r with
  | 0 => λ _, []
  | S r' => λ t : list (tensor A r'),
      length t :: match t with
                  | [] => replicate r' 0
                  | x :: _ => shape r' x
                  end
  end.

(** A tensor is regular of shape [sh]: [sh] has one length per axis and every
    entry of an axis has the same shape. *)
Fixpoint has_shape {A : Type} (r : nat) (sh : list nat) : tensor A r → Prop :=
  match r with
  | 0 => λ _, sh = []
  | S r' => λ t : list (tensor A r'),
      match sh with
      | [] => False
      | n :: sh' =>
          length t = n ∧ length sh' = r' ∧ Forall (has_shape r' sh') t
      end
  end.

(** *** The shift convention of [torch.fft] *)

(** [torch.roll] along one axis: entry [i] moves to [(i + shift) mod n]. *)
Definition roll {B : Type} (shift : nat) (l : list B) : list B :=
  let n := length l in
  drop (n - shift `mod` n) l ++ take (n - shift `mod` n) l.

(** [torch.fft.fftshift] along one axis rolls by [n // 2]. *)
Definition fftshift_axis {B : Type} (l : list B) : list B :=
  roll (length l / 2) l.

(** [torch.fft.ifftshift] along one axis rolls by [(n + 1) // 2]. *)
Definition ifftshift_axis {B : Type} (l : list B) : list B :=
  roll ((length l + 1) / 2) l.

(** Apply a per-axis list operation on every axis named in [dim]; [axis] is
    the index of the outermost axis of the argument. *)
Fixpoint on_axes {A : Type} (f : ∀ B : Type, list B → list B)
    (r axis : nat) (dim : list nat) : tensor A r → tensor A r :=
  match r with
  | 0 => λ t, t
  | S r' => λ t : list (tensor A r'),
      let inner := on_axes f r' (S axis) dim <$> t in
      if bool_decide (axis ∈ dim) then f _ inner else inner
  end.

Definition fftshift {A : Type} {r : nat} (t : tensor A r) (dim : list nat)
    : tensor A r :=
  on_axes (@fftshift_axis) r 0 dim t.

Definition ifftshift {A : Type} {r : nat} (t : tensor A r) (dim : list nat)
    : tensor A r :=
  on_axes (@ifftshift_axis) r 0 dim t.

(** *** Zero-padding and frequency truncation *)

(** Modelled from the spec: the placement rule of [FourierLayer._zero_padding]
    along one axis, whose source file [fourierlayer.py] is not part of the
    sources at hand.  The axis is in shifted order.  The [target - current]
    zeros are split symmetrically around the coefficients; when their number
    is odd the extra zero is appended on the right, after the
    positive-frequency block.  Both halves of [test_zero_padding] fix the
    rule: 5 to 7 gives one zero on each side, 3 to 4 gives the zero on the
    right, 4 to 7 gives one zero on the left and two on the right.  The 3 to
    4 case is on the last axis, which the test names in [dim] but does not
    shift: an axis of odd length that grows by an odd number of zeros is
    fixed by the test only there.  The spec only describes enlarging; a
    target that is not larger inserts nothing. *)
Definition pad_axis {B : Type} (z : B) (target : nat) (l : list B) : list B :=
  let num_pad := target - length l in
  replicate (num_pad / 2) z ++ l ++ replicate (num_pad / 2 + num_pad `mod` 2) z.

(** Modelled from the spec: the rule of
    [FourierLayer._remove_large_frequencies] along one axis (source file
    [fourierlayer.py] missing).  The [current - target] coefficients of
    largest frequency are discarded, half of them on each side of the
    shifted axis and the extra one on the right, mirroring [pad_axis];
    [test_remove_large_frequencies] fixes 7 to 5, 4 to 3 and 7 to 4. *)
Definition narrow_axis {B : Type} (target : nat) (l : list B) : list B :=
  let num_remove := length l - target in
  take target (drop (num_remove / 2) l).

Section resize.
Context {A : Type} (zero : A).

(** A block of zeros of the given shape. *)
Fixpoint zeros (r : nat) (sh : list nat) : tensor A r :=
  match r with
  | 0 => zero
  | S r' => replicate (hd 0 sh) (zeros r' (tl sh))
  end.

(** The shape after padding: a spectral axis grows to its target, every
    other axis keeps its length. *)
Fixpoint padded_shape (axis : nat) (cur target dim : list nat) : list nat :=
  match cur with
  | [] => []
  | c :: cur' =>
      (if bool_decide (axis ∈ dim) then c + (hd 0 target - c) else c)
      :: padded_shape (S axis) cur' (tl target) dim
  end.

(** Modelled from the spec: [FourierLayer._zero_padding] on a tensor
    (source file [fourierlayer.py] missing): every axis named in [dim] is
    padded by [pad_axis] with zero blocks, the other axes pass through. *)
Fixpoint zero_padding_at (r axis : nat) (cur target dim : list nat)
    : tensor A r → tensor A r :=
  match r with
  | 0 => λ t, t
  | S r' => λ t : list (tensor A r'),
      let inner :=
        zero_padding_at r' (S axis) (tl cur) (tl target) dim <$> t in
      if bool_decide (axis ∈ dim)
      then pad_axis
             (zeros r' (padded_shape (S axis) (tl cur) (tl target) dim))
             (hd 0 target) inner
      else inner
  end.

Definition zero_padding {r : nat} (fft_values : tensor A r)
    (target_shape dim : list nat) : tensor A r :=
  zero_padding_at r 0 (shape r fft_values) target_shape dim fft_values.

(** Modelled from the spec: [FourierLayer._remove_large_frequencies] on a
    tensor (source file [fourierlayer.py] missing): every axis named in
    [dim] is cut down by [narrow_axis], the other axes pass through. *)
Fixpoint remove_large_frequencies_at (r axis : nat) (target dim : list nat)
    : tensor A r → tensor A r :=
  match r with
  | 0 => λ t, t
  | S r' => λ t : list (tensor A r'),
      let inner :=
        remove_large_frequencies_at r' (S axis) (tl target) dim <$> t in
      if bool_decide (axis ∈ dim)
      then narrow_axis (hd 0 target) inner
      else inner
  end.

Definition remove_large_frequencies {r : nat} (fft_values : tensor A r)
    (target_shape dim : list nat) : tensor A r :=
  remove_large_frequencies_at r 0 target_shape dim fft_values.

End resize.

(** *** The tensors of [tests/operators/test_fourierlayer.py] *)

Module Fixtures.
Local Open Scope Q_scope.

Definition x_odd : tensor Q 2 :=
  [ [0; 1; 2];
    [1#10; 11#10; 21#10];
    [2#10; 12#10; 22#10];
    [-2#10; 8#10; 18#10];
    [-1#10; 9#10; 19#10] ].

Definition output_odd : tensor Q 2 :=
  [ [0; 1; 2; 0];
    [1#10; 11#10; 21#10; 0];
    [2#10; 12#10; 22#10; 0];
    [0; 0; 0; 0];
    [0; 0; 0; 0];
    [-2#10; 8#10; 18#10; 0];
    [-1#10; 9#10; 19#10; 0] ].

Definition x_even : tensor Q 2 :=
  [ [0; 1; -2];
    [1#10; 11#10; -19#10];
    [-2#10; 8#10; -22#10];
    [-1#10; 9#10; -21#10] ].

Definition output_even : tensor Q 2 :=
  [ [0; 1; -2; 0];
    [1#10; 11#10; -19#10; 0];
    [0; 0; 0; 0];
    [0; 0; 0; 0];
    [0; 0; 0; 0];
    [-2#10; 8#10; -22#10; 0];
    [-1#10; 9#10; -21#10; 0] ].
End Fixtures.

End Spectral.

(** ** Outcomes of calls that may raise *)

(** A Python call either returns a value or raises; the exception then
    propagates to the caller. *)
Inductive error := OperatorError | ReshapeError | RuntimeFault.

Inductive result (X : Type) :=
| Ok (x : X)
| Raise (e : error).
Arguments Ok {X} x.
Arguments Raise {X} e.

(** ** [continuity.operators.losses] *)

Module Losses.

(** A [torch.Tensor] as its shape and its entries in row-major order. *)
Record Tensor := mkTensor { shape : list nat; data : list Q }.

(** Number of entries a shape asks for. *)
Definition numel_of (sh : list nat) : nat := foldr Nat.mul 1 sh.

Definition numel (t : Tensor) : nat := length (data t).

Definition well_formed (t : Tensor) : Prop := numel t = numel_of (shape t).

(** [Tensor.reshape(shape)]: same entries under the new shape; it raises when
    the new shape asks for a different number of entries. *)
Definition reshape (t : Tensor) (sh : list nat) : result Tensor :=
  if decide (numel_of sh = numel t)
  then Ok {| shape := sh; data := data t |}
  else Raise ReshapeError.

Definition Qsum (l : list Q) : Q := foldr Qplus 0%Q l.

(** [torch.nn.MSELoss()] with its default mean reduction, on tensors of one
    shape; the float arithmetic is taken over the rationals. *)
Definition mse (input target : Tensor) : Q :=
  (Qsum (zip_with (λ p v, (p - v) * (p - v)) (data input) (data target))
   / inject_Z (Z.of_nat (numel input)))%Q.

(** An operator is callable as [op(x, u, y)] and may raise. *)
Definition Operator := Tensor → Tensor → Tensor → result Tensor.

(** [MSELoss.__call__]. *)
Definition MSELoss_call (op : Operator) (x u y v : Tensor) : result Q :=
  match op x u y with
  | Raise e => Raise e
  | Ok v_pred =>
      match reshape v_pred (shape v) with
      | Raise e => Raise e
      | Ok v_pred => Ok (mse v_pred v)
      end
  end.

End Losses.

(** ** [continuity.trainer] *)

Module Trainer.

(** *** [Trainer.__init__] *)

(** The values an [Optional[bool]] argument takes. *)
Inductive pyval := PyNone | PyBool (b : bool).

Definition truthy (v : pyval) : bool :=
  match v with
  | PyBool true => true
  | _ => false
  end.

(** Python's [a or b]: the first operand when it is truthy, otherwise the
    second. *)
Definition py_or (a b : pyval) : pyval := if truthy a then a else b.

(** [torch.device]: a type and an optional index. *)
Inductive device_type := CPU | CUDA | OtherDevice.

Record device := mkDevice { dev_type : device_type; index : option Z }.

Definition cpu : device := {| dev_type := CPU; index := None |}.

Record Trainer := mkTrainer { self_device : device; self_verbose : pyval }.

(** The operator, the optimizer and the loss function are kept by the
    trainer as well; their behaviour is part of [env] below. *)
Definition init (device : device) (verbose : pyval) : Trainer :=
  {| self_device := device;
     self_verbose :=
       match index device with
       | Some i => py_or verbose (PyBool (i =? 0)%Z)
       | None => py_or verbose (PyBool true)
       end |}.

(** *** Callbacks, logs and criteria *)

Inductive callback :=
| PrintTrainingLoss
| LinearLRScheduler (epochs : nat)
| UserCallback (id : nat).

Record Logs := mkLogs { epoch : nat; loss_train : Q; loss_test : option Q }.

Inductive criterion :=
| TrainingLossCriterion (tol : Q)
| TestLossCriterion (tol : Q)
| CustomCriterion (stop : Logs → option bool).

(** Modelled from the spec: [Criterion.__call__] of the two criteria of
    [continuity.trainer.criterion], whose source file is missing:
    [TrainingLossCriterion(tol)] stops when [loss_train <= tol],
    [TestLossCriterion(tol)] when [loss_test <= tol], and the latter cannot be
    evaluated without a test loss.  [None] stands for a raised exception. *)
Definition criterion_call (c : criterion) (logs : Logs) : option bool :=
  match c with
  | TrainingLossCriterion tol => Some (Qle_bool (loss_train logs) tol)
  | TestLossCriterion tol =>
      match loss_test logs with
      | Some l => Some (Qle_bool l tol)
      | None => None
      end
  | CustomCriterion stop => stop logs
  end.

(** [fit], lines 106-111: the default criterion. *)
Definition default_criterion (criterion : option criterion)
    (test_dataset : bool) (tol : Q) : Trainer.criterion :=
  match criterion with
  | Some c => c
  | None => if test_dataset then TestLossCriterion tol
            else TrainingLossCriterion tol
  end.

(** *** The world [fit] acts on *)

(** What [fit] does to the outside, in the order it does it. *)
Inductive event :=
| EPrintNumParams
| EPrintDevice
| EOperatorTo (d : device)
| EWrapDDP
| EDataLoader
| EOnTrainBegin (c : callback)
| EOperatorTrain
| EOptimizerStep (epoch batch : nat)
| EDatasetLoss (epoch : nat)
| ECallback (c : callback) (logs : Logs)
| ECriterion (logs : Logs)
| EOnTrainEnd (c : callback).

(** Python list objects live in a store and are passed around by reference,
    so that a list the caller hands in and the list [fit] appends to can be
    one object. *)
Definition loc := nat.

Record world := mkWorld {
  store : list (list callback);
  operator_device : device;
  trace : list event
}.

(** The collaborators of one run: the data loader, the optimizer, the loss,
    the test loss and the ambient process group.  The n-th call of a
    collaborator within a run is determined by its position in the run;
    [None] stands for a raised exception. *)
Record env := mkEnv {
  num_params : option nat;
  distributed : bool;
  data_loader : option nat;
  optimizer_step : nat → nat → option Q;
  dataset_loss : nat → option Q
}.

(** Computations that read and write the world and may raise. *)
Definition M (X : Type) : Type := world → result X * world.

Definition ret {X : Type} (x : X) : M X := λ w, (Ok x, w).

Definition bind {X Y : Type} (k : X → M Y) (m : M X) : M Y :=
  λ w, match m w with
       | (Ok x, w') => k x w'
       | (Raise e, w') => (Raise e, w')
       end.

#[global] Instance M_ret : MRet M := @ret.
#[global] Instance M_bind : MBind M := @bind.

Definition raise {X : Type} : M X := λ w, (Raise RuntimeFault, w).

(** The world after some more events. *)
Definition log (evs : list event) (w : world) : world :=
  {| store := store w; operator_device := operator_device w;
     trace := trace w ++ evs |}.

Definition emit (e : event) : M unit := λ w, (Ok tt, log [e] w).

Definition when (b : bool) (m : M unit) : M unit := if b then m else ret tt.

(** A call of a collaborator: it is recorded, and it returns or raises. *)
Definition call {X : Type} (e : event) (r : option X) : M X :=
  emit e ;;
  match r with
  | Some x => ret x
  | None => raise
  end.

(** [[]]: a new list object. *)
Definition new_list : M loc :=
  λ w, (Ok (length (store w)),
        {| store := store w ++ [[]]; operator_device := operator_device w;
           trace := trace w |}).

(** [callbacks.append(c)] mutates the list object. *)
Definition list_append (l : loc) (c : callback) : M unit :=
  λ w, match store w !! l with
       | Some cs =>
           (Ok tt, {| store := <[l := cs ++ [c]]> (store w);
                      operator_device := operator_device w;
                      trace := trace w |})
       | None => (Raise RuntimeFault, w)
       end.

Definition list_read (l : loc) : M (list callback) :=
  λ w, match store w !! l with
       | Some cs => (Ok cs, w)
       | None => (Raise RuntimeFault, w)
       end.

(** [callbacks or []]: [None] and the empty list are falsy. *)
Definition callbacks_or_new (callbacks : option loc) : M loc :=
  match callbacks with
  | None => new_list
  | Some l =>
      cs ← list_read l;
      match cs with
      | [] => new_list
      | _ :: _ => ret l
      end
  end.

(** [nn.Module.to(device)] moves the module in place and returns it. *)
Definition operator_to (d : device) : M unit :=
  λ w, (Ok tt, {| store := store w; operator_device := d;
                  trace := trace w ++ [EOperatorTo d] |}).

Fixpoint for_each {X : Type} (f : X → M unit) (l : list X) : M unit :=
  match l with
  | [] => ret tt
  | x :: l' => f x ;; for_each f l'
  end.

(** *** [Trainer.fit] *)

(** The [lr_scheduler] argument: [True], [False] or a callback. *)
Inductive lr_arg := LrBool (b : bool) | LrCallback (c : callback).

Section fit.
Variable self : Trainer.
Variable E : env.

(** Lines 152-165: the batches of one epoch; [loss_train] accumulates. *)
Fixpoint train_batches (epoch batch remaining : nat) (loss_train : Q) : M Q :=
  match remaining with
  | 0 => ret loss_train
  | S remaining' =>
      loss ← call (EOptimizerStep epoch batch) (optimizer_step E epoch batch);
      train_batches epoch (S batch) remaining' (loss_train + loss)%Q
  end.

(** Line 167: [loss_train /= len(data_loader)] raises [ZeroDivisionError]
    on an empty loader. *)
Definition mean_loss (loss_train : Q) (n : nat) : M Q :=
  match n with
  | 0 => raise
  | S _ => ret (loss_train / inject_Z (Z.of_nat n))%Q
  end.

(** Lines 149-188: the epochs still to run, [epoch] being the next one. *)
Fixpoint epochs_loop (callbacks : loc) (criterion : Trainer.criterion)
    (test_dataset : bool) (n : nat)
    (remaining epoch : nat) (loss_test : option Q) : M unit :=
  match remaining with
  | 0 => ret tt
  | S remaining' =>
      loss_train ← train_batches epoch 0 n 0%Q;
      loss_train ← mean_loss loss_train n;
      loss_test ←
        (if test_dataset
         then l ← call (EDatasetLoss epoch) (dataset_loss E epoch); ret (Some l)
         else ret loss_test);
      let logs := {| epoch := epoch + 1; loss_train := loss_train;
                     loss_test := loss_test |} in
      cs ← list_read callbacks;
      for_each (λ c, emit (ECallback c logs)) cs ;;
      stop ← call (ECriterion logs) (criterion_call criterion logs);
      if stop : bool then ret tt
      else epochs_loop callbacks criterion test_dataset n
             remaining' (S epoch) loss_test
  end.

(** [fit]; [batch_size] and [shuffle] only reach the data loader, which is
    part of [E]. *)
Definition fit (tol : Q) (epochs : nat) (callbacks : option loc)
    (criterion : option Trainer.criterion) (test_dataset : bool)
    (lr_scheduler : lr_arg) : M unit :=
  let verbose := truthy (self_verbose self) in
  callbacks ← callbacks_or_new callbacks;
  when verbose (list_append callbacks PrintTrainingLoss) ;;
  match lr_scheduler with
  | LrBool false => ret tt
  | LrBool true => list_append callbacks (LinearLRScheduler epochs)
  | LrCallback c => list_append callbacks c
  end ;;
  let criterion := default_criterion criterion test_dataset tol in
  when verbose (_ ← call EPrintNumParams (num_params E); ret tt) ;;
  operator_to (self_device self) ;;
  when (distributed E) (emit EWrapDDP) ;;
  when verbose (emit EPrintDevice) ;;
  n ← call EDataLoader (data_loader E);
  cs ← list_read callbacks;
  for_each (λ c, emit (EOnTrainBegin c)) cs ;;
  emit EOperatorTrain ;;
  epochs_loop callbacks criterion test_dataset n epochs 0 None ;;
  cs ← list_read callbacks;
  for_each (λ c, emit (EOnTrainEnd c)) cs ;;
  operator_to cpu.

End fit.

(** The callbacks [fit] creates or is handed through [lr_scheduler], in the
    order lines 98-104 append them. *)
Definition internal_callbacks (self : Trainer) (epochs : nat)
    (lr_scheduler : lr_arg) : list callback :=
  (if truthy (self_verbose self) then [PrintTrainingLoss] else [])
  ++ match lr_scheduler with
     | LrBool false => []
     | LrBool true => [LinearLRScheduler epochs]
     | LrCallback c => [c]
     end.

(** The callbacks of the caller: what the list handed to [fit] holds when
    [fit] is called, nothing for [None]. *)
Definition callers_callbacks (callbacks : option loc) (w : world)
    : list callback :=
  match callbacks with
  | Some l => default [] (store w !! l)
  | None => []
  end.

(** The effective callbacks of a call of [fit] (lines 95-104): the callbacks
    of the caller, followed by those [fit] appends. *)
Definition effective_callbacks (self : Trainer) (epochs : nat)
    (callbacks : option loc) (lr_scheduler : lr_arg) (w : world)
    : list callback :=
  callers_callbacks callbacks w ++ internal_callbacks self epochs lr_scheduler.

(** The events before the first [on_train_begin] (lines 113-140), the move
    of the operator apart, ... *)
Definition setup_event (e : event) : Prop :=
  match e with
  | EPrintNumParams | EPrintDevice | EWrapDDP | EDataLoader => True
  | _ => False
  end.

(** ... and the events of the epochs (lines 149-188). *)
Definition epoch_event (e : event) : Prop :=
  match e with
  | EOptimizerStep _ _ | EDatasetLoss _ | ECallback _ _ | ECriterion _ => True
  | _ => False
  end.

Definition moves_operator (e : event) : Prop :=
  match e with
  | EOperatorTo _ => True
  | _ => False
  end.

(** The callbacks whose [on_train_begin], respectively [on_train_end], was
    called, in the order of the calls. *)
Definition train_begin_calls (evs : list event) : list callback :=
  omap (λ e, match e with EOnTrainBegin c => Some c | _ => None end) evs.

Definition train_end_calls (evs : list event) : list callback :=
  omap (λ e, match e with EOnTrainEnd c => Some c | _ => None end) evs.

(** [m] leaves the store and the operator alone and adds only events that
    satisfy [P], whether it returns or raises. *)
Definition appends (P : event → Prop) {X : Type} (m : M X) : Prop :=
  ∀ w r w', m w = (r, w') → ∃ evs, w' = log evs w ∧ Forall P evs.

(** *** Concrete runs *)

Module Runs.

(** Two batches per epoch, every batch with loss 1/2. *)
Definition two_batches : env :=
  {| num_params := Some 3;
     distributed := false;
     data_loader := Some 2;
     optimizer_step := λ _ _, Some (1 # 2)%Q;
     dataset_loss := λ _, Some 1%Q |}.

(** The caller holds one list with one callback of its own; the operator
    starts on the CPU. *)
Definition one_callback : world :=
  {| store := [[UserCallback 0]]; operator_device := cpu; trace := [] |}.

Definition cuda (i : Z) : device := {| dev_type := CUDA; index := Some i |}.

End Runs.

End Trainer.

(** ** The epochs of a run of [fit] *)

Module Epochs.
Import Trainer.

(** Lines 150-167: the training loss of an epoch, the batch losses added up
    from 0 in the order of the batches and divided by their number. *)
Definition mean_of (losses : list Q) : Q :=
  (fold_left Qplus losses 0 / inject_Z (Z.of_nat (length losses)))%Q.

(** Lines 176-180: the record of epoch number [epoch], counted from 0. *)
Definition epoch_logs (epoch : nat) (losses : list Q) (loss_test : option Q)
    : Logs :=
  {| Trainer.epoch := epoch + 1; loss_train := mean_of losses;
     loss_test := loss_test |}.

(** What one executed epoch does, given the losses of its batches and the
    test loss of its record: the optimizer steps, the test loss when there is
    a test dataset, the callbacks, the criterion. *)
Definition epoch_block (cs : list callback) (test_dataset : bool)
    (epoch : nat) (losses : list Q) (loss_test : option Q) : list event :=
  (EOptimizerStep epoch <$> seq 0 (length losses))
  ++ (if test_dataset then [EDatasetLoss epoch] else [])
  ++ ((λ c, ECallback c (epoch_logs epoch losses loss_test)) <$> cs)
  ++ [ECriterion (epoch_logs epoch losses loss_test)].

(** The executed epochs one after the other, the first one being number
    [epoch]. *)
Fixpoint blocks (cs : list callback) (test_dataset : bool) (epoch : nat)
    (executed : list (list Q * option Q)) : list event :=
  match executed with
  | [] => []
  | (losses, loss_test) :: executed' =>
      epoch_block cs test_dataset epoch losses loss_test
      ++ blocks cs test_dataset (S epoch) executed'
  end.

(** [m] keeps the invariant [I], whether it returns or raises ... *)
Definition keeps (I : world → Prop) {X : Type} (m : M X) : Prop :=
  ∀ w r w', I w → m w = (r, w') → I w'.

(** ... and [m] keeps it in the runs in which it raises. *)
Definition keeps_when_raising (I : world → Prop) {X : Type} (m : M X) : Prop :=
  ∀ w e w', I w → m w = (Raise e, w') → I w'.

(** Events that neither are an [on_train_end] call nor move the operator. *)
Definition quiet (e : event) : Prop :=
  match e with
  | EOnTrainEnd _ | EOperatorTo _ => False
  | _ => True
  end.

(** Since the world [w0] nothing was cleaned up: [on_train_end] was not
    called, and the operator is on [dev], or it was not moved at all. *)
Definition no_cleanup (dev : device) (w0 w : world) : Prop :=
  ∃ evs,
    trace w = trace w0 ++ evs
    ∧ train_end_calls evs = []
    ∧ (operator_device w = dev
       ∨ (operator_device w = operator_device w0
          ∧ Forall (λ e, ¬ moves_operator e) evs)).

End Epochs.


(** ** [continuity.operators.cnn] *)

Module CNN.

(** [OperatorShapes] of [continuity.operators.shape], whose source is
    missing: for each of x, u, y and v the number of points and the
    dimension of a point. *)
Record TensorShape := mkTensorShape { num : Z; dim : Z }.

Record OperatorShapes := mkOperatorShapes {
  x : TensorShape; u : TensorShape; y : TensorShape; v : TensorShape
}.

Inductive conv_class := Conv1d | Conv2d | Conv3d.

(** A convolution as [__init__] asks for it:
    [Conv(in_channels, out_channels, kernel_size=..., padding=...)], stride
    and dilation at their default 1. *)
Record conv := mkConv {
  conv_cls : conv_class;
  in_channels : Z;
  out_channels : Z;
  kernel_size : Z;
  padding : Z
}.

Record ConvolutionalNeuralNetwork := mkCNN {
  shapes : OperatorShapes;
  first_layer : conv;
  hidden_layers : list conv;
  last_layer : conv
}.

(** The ways [__init__] fails: its two assertions, and an error of a [torch]
    constructor. *)
Inductive failure := DepthAssertion | GridAssertion | TorchError.

Section init.

(** The check of its arguments that a [torch.nn.ConvNd] constructor makes. *)
Variable torch_accepts : conv → bool.

Definition Conv (cls : conv_class) (cin cout k p : Z) : failure + conv :=
  let c := {| conv_cls := cls; in_channels := cin; out_channels := cout;
              kernel_size := k; padding := p |} in
  if torch_accepts c then inr c else inl TorchError.

(** Lines 46-49: one convolution for each element of [range(depth - 1)]. *)
Fixpoint hidden (n : nat) (cls : conv_class) (width k p : Z)
    : failure + list conv :=
  match n with
  | 0 => inr []
  | S n' =>
      match Conv cls width width k p with
      | inl e => inl e
      | inr c =>
          match hidden n' cls width k p with
          | inl e => inl e
          | inr cs => inr (c :: cs)
          end
      end
  end.

(** [ConvolutionalNeuralNetwork.__init__]; the activation plays no role in
    what is built. *)
Definition init (shapes : OperatorShapes) (width depth kernel_size : Z)
    : failure + ConvolutionalNeuralNetwork :=
  if negb (1 <? depth)%Z then inl DepthAssertion else
  let padding := (kernel_size `div` 2)%Z in
  match
    (if (dim (x shapes) =? 1)%Z then Some Conv1d
     else if (dim (x shapes) =? 2)%Z then Some Conv2d
     else if (dim (x shapes) =? 3)%Z then Some Conv3d
     else None)
  with
  | None => inl GridAssertion
  | Some cls =>
      match Conv cls (dim (u shapes)) width kernel_size padding with
      | inl e => inl e
      | inr first =>
          match hidden (Z.to_nat (depth - 1)) cls width kernel_size padding with
          | inl e => inl e
          | inr hiddens =>
              match Conv cls width (dim (v shapes)) kernel_size padding with
              | inl e => inl e
              | inr last =>
                  inr {| shapes := shapes; first_layer := first;
                         hidden_layers := hiddens; last_layer := last |}
              end
          end
      end
  end.

End init.

(** The convolutions in the order [forward] applies them (lines 77-80). *)
Definition layers (net : ConvolutionalNeuralNetwork) : list conv :=
  first_layer net :: hidden_layers net ++ [last_layer net].

(** The length of a grid axis after a convolution with stride 1 and
    dilation 1, as [torch.nn.ConvNd] documents it. *)
Definition conv_output_length (c : conv) (length_in : Z) : Z :=
  (length_in + 2 * padding c - (kernel_size c - 1))%Z.

(** The length of a grid axis after all the convolutions of [forward]. *)
Definition grid_length_after (net : ConvolutionalNeuralNetwork) (length_in : Z)
    : Z :=
  foldl (λ len c, conv_output_length c len) length_in (layers net).

End CNN.

(** ** [continuity.benchmarks.run.runner] *)

Module Runner.
Import Trainer.

(** A value that is logged as a parameter. *)
Inductive param := PInt (z : Z) | PFloat (q : Q) | PStr (s : string).

(** The fields of [RunConfig] that [run] reads for the parameter log and for
    the trainer; the source of [RunConfig] is missing. *)
Record RunConfig := mkRunConfig {
  seed : Z;
  lr : Q;
  batch_size : Z;
  tol : Q;
  max_epochs : nat;
  device : Trainer.device
}.

(** A Python [dict] with string keys, as its items in insertion order. *)
Definition dict : Type := list (string * param).

(** [key in d]. *)
Definition contains (key : string) (d : dict) : bool :=
  bool_decide (key ∈ d.*1).

(** Lines 36-37 and 54-68: the [mlflow.log_param(key, value)] calls of
    [run], in the order it makes them. *)
Definition log_params (config : RunConfig) (params_dict : option dict)
    : list (string * param) :=
  let params_dict := default [] params_dict in
  params_dict
  ++ (if contains "seed" params_dict then []
      else [("seed", PInt (seed config))])
  ++ (if contains "lr" params_dict then []
      else [("lr", PFloat (lr config))])
  ++ (if contains "batch_size" params_dict then []
      else [("batch_size", PInt (batch_size config))])
  ++ (if contains "tol" params_dict then []
      else [("tol", PFloat (tol config))])
  ++ (if contains "max_epochs" params_dict then []
      else [("max_epochs", PInt (Z.of_nat (max_epochs config)))]).

(** The values [run] logs when [params_dict] does not have them. *)
Definition defaults (config : RunConfig) : list (string * param) :=
  [ ("seed", PInt (seed config));
    ("lr", PFloat (lr config));
    ("batch_size", PInt (batch_size config));
    ("tol", PFloat (tol config));
    ("max_epochs", PInt (Z.of_nat (max_epochs config))) ].

(** The callback [run] registers; for [fit] it is a callback of the
    caller. *)
Definition MLFlowLogger : callback := UserCallback 0.

(** A list display [[c1, ...]] makes a new list object. *)
Definition list_display (cs : list callback) : M loc :=
  λ w, (Ok (length (store w)),
        {| store := store w ++ [cs]; operator_device := operator_device w;
           trace := trace w |}).

(** Lines 80-98: the trainer is made with [verbose=True] and fitted with
    [callbacks=[MLFlowLogger(operator)]], no criterion, the test dataset of
    the benchmark and the default [lr_scheduler=True]. *)
Definition run_fit (config : RunConfig) (E : env) (test_dataset : bool)
    : M unit :=
  let trainer := Trainer.init (device config) (PyBool true) in
  callbacks ← list_display [MLFlowLogger];
  fit trainer E (tol config) (max_epochs config) (Some callbacks) None
    test_dataset (LrBool true).

End Runner.
(** * Properties *)

(** ** Spectral resizing *)

Import Spectral.

(** Halving: the two halves of [pad_axis] and [narrow_axis] add up. *)
Lemma halves (d : nat) : d / 2 + (d / 2 + d `mod` 2) = d.
Proof.
  pose proof (Nat.div_mod_eq d 2). lia.
Qed.

Lemma half_of_sum (a b d : nat) :
  a = b → (a + b + d) / 2 = a + d / 2.
Proof.
  intros ->.
  replace (b + b + d) with (d + b * 2) by lia.
  rewrite Nat.div_add by lia. lia.
Qed.

Lemma half_of_odd_sum (a b d : nat) :
  a = b → Nat.Even d → (a + S b + d) / 2 = a + d / 2.
Proof.
  intros -> [k ->].
  replace (b + S b + 2 * k) with (1 + (b + k) * 2) by lia.
  rewrite Nat.div_add by lia.
  replace (2 * k) with (0 + k * 2) by lia.
  rewrite Nat.div_add by lia. simpl. lia.
Qed.

Section axis.
Context {B : Type}.
Implicit Types (l : list B) (z : B).

Lemma length_pad_axis z target l :
  length (pad_axis z target l) = length l + (target - length l).
Proof.
  unfold pad_axis. rewrite !length_app, !length_replicate.
  pose proof (halves (target - length l)). lia.
Qed.

(** Cutting a padded axis back to its length gives the axis back, whatever
    the number [d] of zeros. *)
Lemma narrow_axis_padded z d l :
  narrow_axis (length l)
    (replicate (d / 2) z ++ l ++ replicate (d / 2 + d `mod` 2) z) = l.
Proof.
  unfold narrow_axis. rewrite !length_app, !length_replicate.
  replace (d / 2 + (length l + (d / 2 + d `mod` 2)) - length l)
    with d by (pose proof (halves d); lia).
  rewrite drop_app_length' by (by rewrite length_replicate).
  apply take_app_length.
Qed.

Lemma narrow_pad_axis z target l :
  narrow_axis (length l) (pad_axis z target l) = l.
Proof. apply narrow_axis_padded. Qed.

(** [ifftshift] moves the second half of the axis, from index [n / 2] on,
    to the front. *)
Lemma ifftshift_axis_split l :
  ifftshift_axis l = drop (length l / 2) l ++ take (length l / 2) l.
Proof.
  unfold ifftshift_axis, roll.
  destruct (decide (length l ≤ 1)) as [Hs|Hl].
  - destruct l as [|a [|b l]]; simpl in *; [done | done | lia].
  - assert (Hlt : (length l + 1) / 2 < length l).
    { apply Nat.Div0.div_lt_upper_bound. lia. }
    rewrite (Nat.mod_small _ _ Hlt).
    replace (length l - (length l + 1) / 2) with (length l / 2); [done|].
    pose proof (Nat.div_mod_eq (length l) 2).
    pose proof (Nat.div_mod_eq (length l + 1) 2).
    pose proof (Nat.mod_upper_bound (length l) 2).
    pose proof (Nat.mod_upper_bound (length l + 1) 2).
    lia.
Qed.

(** [fftshift] moves the second half of the axis, from index
    [(n + 1) / 2] on, to the front. *)
Lemma fftshift_axis_split l :
  fftshift_axis l
  = drop ((length l + 1) / 2) l ++ take ((length l + 1) / 2) l.
Proof.
  unfold fftshift_axis, roll.
  destruct (decide (length l = 0)) as [Hs|Hl].
  - destruct l; simpl in *; [done | lia].
  - assert (Hlt : length l / 2 < length l).
    { apply Nat.div_lt; lia. }
    rewrite (Nat.mod_small _ _ Hlt).
    replace (length l - length l / 2) with ((length l + 1) / 2); [done|].
    pose proof (Nat.div_mod_eq (length l) 2).
    pose proof (Nat.div_mod_eq (length l + 1) 2).
    pose proof (Nat.mod_upper_bound (length l) 2).
    pose proof (Nat.mod_upper_bound (length l + 1) 2).
    lia.
Qed.

(** Un-shifting a padded axis whose centre sits at the new centre: the
    zeros end up between the two halves of the coefficients. *)
Lemma ifftshift_pad_axis z target low high :
  length (low ++ high) ≤ target →
  (target / 2 = (target - length (low ++ high)) / 2 + length low) →
  ifftshift_axis (pad_axis z target (low ++ high))
  = high ++ replicate (target - length (low ++ high)) z ++ low.
Proof.
  intros Hle Hc. rewrite ifftshift_axis_split, length_pad_axis.
  replace (length (low ++ high) + (target - length (low ++ high)))
    with target by lia.
  rewrite Hc. unfold pad_axis.
  set (d := target - length (low ++ high)).
  rewrite (assoc_L (++) (replicate _ _) (low ++ high)).
  rewrite (assoc_L (++) (replicate _ _) low high).
  rewrite <- (assoc_L (++) (replicate _ _ ++ low) high).
  rewrite drop_app_length', take_app_length'
    by (rewrite length_app, length_replicate; lia).
  rewrite <- !(assoc_L (++)). f_equal.
  rewrite (assoc_L (++) (replicate _ _) (replicate _ _) low).
  rewrite <- replicate_add. do 2 f_equal.
  pose proof (halves d). lia.
Qed.

End axis.

Lemma fmap_fixed {X : Type} (f : X → X) (l : list X) :
  (∀ x, f x = x) → f <$> l = l.
Proof.
  intros Hf. induction l as [|x l IH]; [done|]. by rewrite fmap_cons, Hf, IH.
Qed.

Section tensors.
Context {A : Type} (zero : A).

(** Axes that are not named in [dim] pass through the shifts, ... *)
Lemma on_axes_untouched (f : ∀ B : Type, list B → list B) r axis dim
    (t : tensor A r) :
  (∀ i, i ∈ dim → i < axis) → on_axes f r axis dim t = t.
Proof.
  revert axis t. induction r as [|r IH]; intros axis t Hdim; [done|].
  simpl. rewrite bool_decide_eq_false_2 by (intros Hin; apply Hdim in Hin; lia).
  apply fmap_fixed. intros x. apply IH. intros i Hi. apply Hdim in Hi. lia.
Qed.

Lemma padded_shape_untouched axis cur target dim :
  (∀ i, i ∈ dim → i < axis) → padded_shape axis cur target dim = cur.
Proof.
  revert axis target. induction cur as [|c cur IH]; intros axis target Hdim; [done|].
  simpl. rewrite bool_decide_eq_false_2 by (intros Hin; apply Hdim in Hin; lia).
  f_equal. apply IH. intros i Hi. apply Hdim in Hi. lia.
Qed.

(** ... through the padding, ... *)
Lemma zero_padding_at_untouched r axis cur target dim (t : tensor A r) :
  (∀ i, i ∈ dim → i < axis) → zero_padding_at zero r axis cur target dim t = t.
Proof.
  revert axis cur target t.
  induction r as [|r IH]; intros axis cur target t Hdim; [done|].
  simpl. rewrite bool_decide_eq_false_2 by (intros Hin; apply Hdim in Hin; lia).
  apply fmap_fixed. intros x. apply IH. intros i Hi. apply Hdim in Hi. lia.
Qed.

(** ... and through the truncation. *)
Lemma remove_large_frequencies_at_untouched r axis target dim (t : tensor A r) :
  (∀ i, i ∈ dim → i < axis) → remove_large_frequencies_at r axis target dim t = t.
Proof.
  revert axis target t.
  induction r as [|r IH]; intros axis target t Hdim; [done|].
  simpl. rewrite bool_decide_eq_false_2 by (intros Hin; apply Hdim in Hin; lia).
  apply fmap_fixed. intros x. apply IH. intros i Hi. apply Hdim in Hi. lia.
Qed.

Lemma only_axis_0 i : i ∈ [0] → i < 1.
Proof. intros ->%list_elem_of_singleton. lia. Qed.

(** With axis 0 as the only spectral axis the operations act on the
    outermost list alone. *)
Lemma zero_padding_axis_0 r (t : tensor A (S r)) target rest :
  zero_padding zero t (target :: rest) [0]
  = pad_axis (zeros zero r (tl (shape (S r) t))) target t.
Proof.
  unfold zero_padding. simpl.
  rewrite padded_shape_untouched by apply only_axis_0.
  f_equal. apply fmap_fixed. intros x.
  apply zero_padding_at_untouched, only_axis_0.
Qed.

Lemma ifftshift_axis_0 r (t : tensor A (S r)) :
  ifftshift t [0] = ifftshift_axis t.
Proof.
  unfold ifftshift. simpl. f_equal.
  apply fmap_fixed. intros x. apply on_axes_untouched, only_axis_0.
Qed.

Lemma fftshift_axis_0 r (t : tensor A (S r)) :
  fftshift t [0] = fftshift_axis t.
Proof.
  unfold fftshift. simpl. f_equal.
  apply fmap_fixed. intros x. apply on_axes_untouched, only_axis_0.
Qed.

End tensors.

Lemma fmap_fixed_Forall {X : Type} (P : X → Prop) (f : X → X) (l : list X) :
  Forall P l → (∀ x, P x → f x = x) → f <$> l = l.
Proof.
  intros Hl Hf. induction Hl as [|x l Hx _ IH]; [done|].
  by rewrite fmap_cons, Hf, IH.
Qed.

Lemma fmap_pad_axis {X Y : Type} (f : X → Y) (z : X) target (l : list X) :
  f <$> pad_axis z target l = pad_axis (f z) target (f <$> l).
Proof.
  unfold pad_axis. by rewrite !fmap_app, !fmap_replicate, length_fmap.
Qed.

Section shapes.
Context {A : Type} (zero : A).

Lemma has_shape_length r sh (t : tensor A r) : has_shape r sh t → length sh = r.
Proof.
  destruct r as [|r]; simpl.
  - by intros ->.
  - destruct sh as [|n sh]; [done|]. intros (_ & Hl & _). simpl. by f_equal.
Qed.

Lemma has_shape_shape r sh (t : tensor A r) :
  has_shape r sh t → Forall (lt 0) sh → shape r t = sh.
Proof.
  revert sh t. induction r as [|r IH]; intros sh t; simpl.
  - by intros ->.
  - destruct sh as [|n sh]; [done|]. intros (Hn & Hl & Ht) Hpos.
    apply Forall_cons in Hpos as [Hn0 Hpos]. f_equal; [done|].
    destruct t as [|x t]; [simpl in Hn; lia|].
    apply Forall_cons in Ht as [Hx _]. by apply IH.
Qed.

Lemma length_padded_shape axis cur target dim :
  length (padded_shape axis cur target dim) = length cur.
Proof.
  revert axis target. induction cur as [|c cur IH]; intros axis target; [done|].
  simpl. by rewrite IH.
Qed.

Lemma has_shape_zeros r sh : length sh = r → has_shape r sh (zeros zero r sh).
Proof.
  revert sh. induction r as [|r IH]; intros sh Hl; simpl.
  - by destruct sh.
  - destruct sh as [|n sh]; [done|]. simpl in *.
    rewrite length_replicate. split_and!; [done | lia |].
    apply Forall_replicate, IH. lia.
Qed.

(** The padded tensor is regular again, of the shape [padded_shape]. *)
Lemma has_shape_zero_padding_at r axis sh target dim (t : tensor A r) :
  has_shape r sh t →
  has_shape r (padded_shape axis sh target dim)
    (zero_padding_at zero r axis sh target dim t).
Proof.
  revert axis sh target t.
  induction r as [|r IH]; intros axis sh target t; simpl.
  - by intros ->.
  - destruct sh as [|n sh]; [done|]. intros (Hn & Hl & Ht). simpl.
    assert (Hin : Forall
      (has_shape r (padded_shape (S axis) sh (tl target) dim))
      (zero_padding_at zero r (S axis) sh (tl target) dim <$> t)).
    { apply Forall_fmap. eapply Forall_impl; [exact Ht|]. intros x Hx. by apply IH. }
    rewrite length_padded_shape. case_bool_decide.
    + rewrite length_pad_axis, length_fmap, Hn. split_and!; [done..|].
      unfold pad_axis. rewrite !Forall_app. split_and!; [|done|].
      all: apply Forall_replicate, has_shape_zeros;
        by rewrite length_padded_shape.
    + rewrite length_fmap. by split_and!.
Qed.

(** The shape after padding, axis by axis. *)
Lemma padded_shape_lookup axis cur target dim i c :
  cur !! i = Some c →
  padded_shape axis cur target dim !! i
  = Some (if bool_decide (axis + i ∈ dim)
          then c + (default 0 (target !! i) - c) else c).
Proof.
  revert axis target i.
  induction cur as [|c' cur IH]; intros axis target i; [done|].
  destruct i as [|i]; simpl.
  - intros [= ->]. rewrite Nat.add_0_r. by destruct target.
  - intros Hi. rewrite (IH _ _ _ Hi).
    replace (S axis + i) with (axis + S i) by lia. by destruct target.
Qed.

(** Padding and then truncating back, on every axis of a regular tensor. *)
Lemma remove_zero_padding_at r axis sh cur target dim (t : tensor A r) :
  has_shape r sh t →
  remove_large_frequencies_at r axis sh dim
    (zero_padding_at zero r axis cur target dim t) = t.
Proof.
  revert axis sh cur target t.
  induction r as [|r IH]; intros axis sh cur target t; [done|]. simpl.
  destruct sh as [|n sh]; [done|]. intros (Hn & _ & Ht). simpl.
  assert (Hin :
    remove_large_frequencies_at r (S axis) sh dim
      <$> (zero_padding_at zero r (S axis) (tl cur) (tl target) dim <$> t) = t).
  { rewrite <- list_fmap_compose.
    apply (fmap_fixed_Forall _ _ _ Ht). intros x Hx. by apply IH. }
  case_bool_decide; [|done].
  rewrite fmap_pad_axis, Hin, <- Hn. apply narrow_pad_axis.
Qed.

End shapes.
(** [test_zero_padding], odd half. *)
Example test_zero_padding_odd :
  ifftshift
    (zero_padding 0%Q (fftshift Fixtures.x_odd [0]) (shape 2 Fixtures.output_odd) [0; 1])
    [0]
  = Fixtures.output_odd.
Proof. reflexivity. Qed.

(** [test_zero_padding], even half. *)
Example test_zero_padding_even :
  ifftshift
    (zero_padding 0%Q (fftshift Fixtures.x_even [0]) (shape 2 Fixtures.output_even) [0; 1])
    [0]
  = Fixtures.output_even.
Proof. reflexivity. Qed.

(** [test_remove_large_frequencies], odd half. *)
Example test_remove_large_frequencies_odd :
  ifftshift
    (remove_large_frequencies (fftshift Fixtures.output_odd [0]) (shape 2 Fixtures.x_odd) [0; 1])
    [0]
  = Fixtures.x_odd.
Proof. reflexivity. Qed.

(** [test_remove_large_frequencies], even half. *)
Example test_remove_large_frequencies_even :
  ifftshift
    (remove_large_frequencies (fftshift Fixtures.output_even [0]) (shape 2 Fixtures.x_even) [0; 1])
    [0]
  = Fixtures.x_even.
Proof. reflexivity. Qed.

(** C1. Zero-padding the spectral axes of a regular tensor to a larger
    target shape and then removing the large frequencies back to the original
    shape gives the original tensor, whatever the parity of the axis lengths
    and for any set [dim] of spectral axes (one axis, two axes, ...). *)
Theorem zero_padding_then_remove_large_frequencies
    {A : Type} (zero : A) (r : nat) (t : tensor A r)
    (sh target dim : list nat) :
  has_shape r sh t →
  Forall2 le sh target →
  remove_large_frequencies (zero_padding zero t target dim) sh dim = t.
Proof.
  intros Hsh _. by apply remove_zero_padding_at.
Qed.

Lemma zero_padding_then_remove_large_frequencies_witness :
  remove_large_frequencies
    (zero_padding 0%Q (fftshift Fixtures.x_even [0]) [7; 4] [0; 1])
    [4; 3] [0; 1]
  = fftshift Fixtures.x_even [0].
Proof.
  apply zero_padding_then_remove_large_frequencies.
  - vm_compute. repeat split; repeat constructor.
  - repeat constructor; lia.
Defined.

(** C2, as stated, fails on the even half of [test_zero_padding]: the row of
    the Nyquist bin does not precede the three rows of zeros. *)
Lemma nyquist_before_zeros_counterexample :
  ifftshift
    (zero_padding 0%Q (fftshift Fixtures.x_even [0]) [7; 4] [0; 1]) [0]
  ≠ ([ [0; 1; -2; 0];
       [1#10; 11#10; -19#10; 0];
       [-2#10; 8#10; -22#10; 0];
       [0; 0; 0; 0];
       [0; 0; 0; 0];
       [0; 0; 0; 0];
       [-1#10; 9#10; -21#10; 0] ]%Q : tensor Q 2).
Proof. vm_compute. discriminate. Qed.

(** C2, amended.  Zero-padding an axis of length 4, given in standard order
    as zero frequency, positive frequency, Nyquist bin, negative frequency,
    to length 7 puts the three zero blocks between the positive frequency
    and the Nyquist bin: in standard order the zeros precede the Nyquist
    bin.  A zero block has the shape of an entry of the axis. *)
Theorem zero_padding_4_to_7
    {A : Type} (zero : A) (r : nat) (f0 p1 nyq n1 : tensor A r)
    (rest : list nat) :
  let x : tensor A (S r) := [f0; p1; nyq; n1] in
  let z := zeros zero r (shape r nyq) in
  ifftshift (zero_padding zero (fftshift x [0]) (7 :: rest) [0]) [0]
  = [f0; p1; z; z; z; nyq; n1].
Proof.
  intros x z. rewrite ifftshift_axis_0, zero_padding_axis_0, fftshift_axis_0.
  reflexivity.
Qed.

(** C3. On an axis of even length in shifted order, that is the Nyquist bin,
    the other negative frequencies, then as many non-negative frequencies as
    both together, zero-padding to a larger length gives in standard order
    the non-negative frequencies, the block of zeros, and directly after it
    the Nyquist bin followed by the other negative frequencies: the bin
    occurs once. *)
Theorem zero_padding_even_nyquist
    {A : Type} (zero : A) (r : nat) (nyq : tensor A r)
    (neg pos : list (tensor A r)) (target : nat) (rest : list nat) :
  let t : tensor A (S r) := (nyq :: neg) ++ pos in
  length pos = S (length neg) →
  length t < target →
  ifftshift (zero_padding zero t (target :: rest) [0]) [0]
  = pos
    ++ replicate (target - length t) (zeros zero r (tl (shape (S r) t)))
    ++ nyq :: neg.
Proof.
  intros t Hlen Hlt. rewrite ifftshift_axis_0, zero_padding_axis_0.
  subst t. fold (tensor A r) in *. set (low := nyq :: neg) in *.
  assert (Hlow : length low = length pos) by (subst low; simpl; lia).
  pose proof (length_app low pos) as Happ.
  apply ifftshift_pad_axis; fold (tensor A r); [lia|].
  replace target with (length low + length pos
                       + (target - length (low ++ pos))) at 1 by lia.
  rewrite (half_of_sum _ _ _ Hlow). lia.
Qed.

Lemma zero_padding_even_nyquist_witness :
  ifftshift
    (zero_padding 0%Q (fftshift Fixtures.x_even [0]) [7; 4] [0]) [0]
  = [ [0; 1; -2]; [1#10; 11#10; -19#10];
      [0; 0; 0]; [0; 0; 0]; [0; 0; 0];
      [-2#10; 8#10; -22#10]; [-1#10; 9#10; -21#10] ]%Q.
Proof.
  apply (zero_padding_even_nyquist 0%Q 1
           [-2#10; 8#10; -22#10]%Q [[-1#10; 9#10; -21#10]%Q]
           [[0; 1; -2]%Q; [1#10; 11#10; -19#10]%Q] 7 [4]).
  - reflexivity.
  - simpl. lia.
Defined.

Lemma padded_shape_non_spectral (sh target dim : list nat) (i : nat) :
  i ∉ dim → padded_shape 0 sh target dim !! i = sh !! i.
Proof.
  intros Hi. destruct (sh !! i) as [c|] eqn:Hc.
  - rewrite (padded_shape_lookup _ _ _ _ _ _ Hc). simpl.
    by rewrite bool_decide_eq_false_2.
  - apply lookup_ge_None. rewrite length_padded_shape.
    by apply lookup_ge_None.
Qed.

(** An axis of odd length in shifted order, that is the negative
    frequencies, the zero-frequency term, then as many positive frequencies,
    padded by an even number of zeros: in standard order the zero-frequency
    term is at index 0, followed by the positive frequencies, the block of
    zeros, and the negative frequencies.  The padded tensor keeps the length
    of every axis that is not spectral.  This is the part of the odd case
    that [test_zero_padding] fixes on a shifted axis. *)
Lemma odd_axis_even_number_of_zeros
    {A : Type} (zero : A) (r : nat) (f0 : tensor A r)
    (neg pos : list (tensor A r)) (target : nat) (rest : list nat) :
  let t : tensor A (S r) := neg ++ f0 :: pos in
  length neg = length pos →
  length t < target →
  Nat.Even (target - length t) →
  ifftshift (zero_padding zero t (target :: rest) [0]) [0]
  = (f0 :: pos)
    ++ replicate (target - length t) (zeros zero r (tl (shape (S r) t)))
    ++ neg
  ∧ ∀ r' (u : tensor A r') (sh tgt dim : list nat),
      has_shape r' sh u → Forall (lt 0) sh →
      has_shape r' (padded_shape 0 sh tgt dim) (zero_padding zero u tgt dim)
      ∧ ∀ i, i ∉ dim → padded_shape 0 sh tgt dim !! i = sh !! i.
Proof.
  intros t Hlen Hlt Heven. split.
  - rewrite ifftshift_axis_0, zero_padding_axis_0.
    subst t. fold (tensor A r) in *. set (high := f0 :: pos) in *.
    assert (Hhigh : length high = S (length pos)) by done.
    pose proof (length_app neg high) as Happ.
    apply ifftshift_pad_axis; fold (tensor A r); [lia|].
    replace target with (length neg + S (length pos)
                         + (target - length (neg ++ high))) at 1 by lia.
    rewrite (half_of_odd_sum _ _ _ Hlen Heven). lia.
  - intros r' u sh tgt dim Hu Hpos. split.
    + unfold zero_padding. rewrite (has_shape_shape _ _ _ Hu Hpos).
      by apply has_shape_zero_padding_at.
    + intros i. apply padded_shape_non_spectral.
Qed.

Example odd_axis_5_to_7 :
  ifftshift
    (zero_padding 0%Q (fftshift Fixtures.x_odd [0]) [7; 4] [0]) [0]
  = [ [0; 1; 2]; [1#10; 11#10; 21#10]; [2#10; 12#10; 22#10];
      [0; 0; 0]; [0; 0; 0];
      [-2#10; 8#10; 18#10]; [-1#10; 9#10; 19#10] ]%Q.
Proof.
  apply (odd_axis_even_number_of_zeros 0%Q 1
           [0; 1; 2]%Q
           [[-2#10; 8#10; 18#10]%Q; [-1#10; 9#10; 19#10]%Q]
           [[1#10; 11#10; 21#10]%Q; [2#10; 12#10; 22#10]%Q] 7 [4]).
  - reflexivity.
  - simpl. lia.
  - exists 1. reflexivity.
Qed.

(** ** The mean-squared-error loss *)

Import Losses.

(** C6. [MSELoss.__call__] calls the operator as [op x u y].  When the
    prediction has as many entries as the label [v], it is reshaped to the
    shape of [v] and the result is the mean of the squared differences of the
    entries; when the numbers of entries differ the call raises the reshape
    error and returns nothing. *)
Theorem MSELoss_call_reshapes (op : Operator) (x u y v v_pred : Tensor) :
  op x u y = Ok v_pred →
  well_formed v →
  (numel v_pred = numel v →
     ∃ reshaped,
       reshape v_pred (shape v) = Ok reshaped
       ∧ shape reshaped = shape v
       ∧ data reshaped = data v_pred
       ∧ MSELoss_call op x u y v
         = Ok (Qsum (zip_with (λ p q, (p - q) * (p - q))%Q
                       (data v_pred) (data v))
               / inject_Z (Z.of_nat (numel v)))%Q)
  ∧ (numel v_pred ≠ numel v →
     MSELoss_call op x u y v = Raise ReshapeError).
Proof.
  intros Hop Hv. unfold MSELoss_call, reshape. rewrite Hop. split; intros Hn.
  - rewrite decide_True by congruence.
    eexists. split_and!; [done..|]. unfold mse, numel in *. simpl. by rewrite Hn.
  - rewrite decide_False; [done|].
    unfold well_formed in Hv. congruence.
Qed.

Lemma MSELoss_call_reshapes_witness :
  let op : Operator := λ x u y, Ok {| shape := [1; 4]; data := [1; 2; 3; 5]%Q |} in
  let x := {| shape := [1; 1]; data := [0%Q] |} in
  let v := {| shape := [1; 2; 2]; data := [1; 2; 3; 4]%Q |} in
  let w := {| shape := [1; 3]; data := [1; 2; 3]%Q |} in
  MSELoss_call op x x x v = Ok ((0 + (0 + (0 + (1 + 0)))) / 4)%Q
  ∧ MSELoss_call op x x x w = Raise ReshapeError.
Proof.
  intros op x v w. split.
  - destruct (MSELoss_call_reshapes op x x x v
                {| shape := [1; 4]; data := [1; 2; 3; 5]%Q |}
                eq_refl eq_refl) as [H _].
    destruct (H eq_refl) as (reshaped & _ & _ & _ & Hcall).
    rewrite Hcall. reflexivity.
  - destruct (MSELoss_call_reshapes op x x x w
                {| shape := [1; 4]; data := [1; 2; 3; 5]%Q |}
                eq_refl eq_refl) as [_ H].
    apply H. vm_compute. lia.
Defined.

(** ** The trainer *)

Import Trainer.

(** C10. [Trainer.__init__] leaves [self.verbose] at [True] whenever the
    device has no index or index 0, whatever [verbose] was passed, [False]
    included; [self.verbose] is [False] exactly when the index is a non-zero
    integer and [verbose] is not truthy, and it is never [None]. *)
Theorem init_verbose (device : device) (verbose : pyval) :
  (index device = None ∨ index device = Some 0%Z →
     self_verbose (init device verbose) = PyBool true)
  ∧ (self_verbose (init device (PyBool false)) = PyBool true
     ↔ index device = None ∨ index device = Some 0%Z)
  ∧ (self_verbose (init device verbose) = PyBool false
     ↔ ∃ i, index device = Some i ∧ i ≠ 0%Z ∧ truthy verbose = false)
  ∧ self_verbose (init device verbose) ≠ PyNone.
Proof.
  unfold init, py_or. simpl.
  destruct (index device) as [i|]; [destruct (Z.eqb_spec i 0) as [->|Hi]|].
  all: destruct verbose as [|[|]]; simpl.
  all: split_and!; try done.
  all: try (intros [[=]|[=]]; congruence).
  all: split; try done; try (by left); try (by right).
  all: try (intros [[=]|[=]]; congruence).
  all: try (intros (j & [=] & Hj & Ht); done).
  all: try (intros _; by eexists).
Qed.

(** *** Computations that only add events *)

Lemma log_log (a b : list event) (w : world) :
  log b (log a w) = log (a ++ b) w.
Proof. unfold log. simpl. by rewrite (assoc_L (++)). Qed.

Lemma log_nil (w : world) : log [] w = w.
Proof. destruct w. unfold log. simpl. by rewrite (right_id_L [] (++)). Qed.

Section appends.
Context (P : event → Prop).

Lemma appends_ret {X} (x : X) : appends P (mret x).
Proof. intros w r w' [= <- <-]. exists []. by rewrite log_nil. Qed.

Lemma appends_raise {X} : appends P (@raise X).
Proof. intros w r w' [= <- <-]. exists []. by rewrite log_nil. Qed.

Lemma appends_bind {X Y} (m : M X) (k : X → M Y) :
  appends P m → (∀ x, appends P (k x)) → appends P (m ≫= k).
Proof.
  intros Hm Hk w r w'. unfold mbind, M_bind, bind.
  destruct (m w) as [[x|e] w1] eqn:Hmw.
  - intros Hkw. destruct (Hm _ _ _ Hmw) as (evs1 & -> & H1).
    destruct (Hk _ _ _ _ Hkw) as (evs2 & -> & H2).
    exists (evs1 ++ evs2). rewrite log_log. split; [done|].
    by apply Forall_app.
  - intros [= <- <-]. eauto.
Qed.

Lemma appends_emit (e : event) : P e → appends P (emit e).
Proof.
  intros He w r w' [= <- <-]. exists [e]. split; [done|]. by constructor.
Qed.

Lemma appends_call {X} (e : event) (r : option X) : P e → appends P (call e r).
Proof.
  intros He. unfold call. apply appends_bind; [by apply appends_emit|].
  intros _. destruct r; [apply appends_ret | apply appends_raise].
Qed.

Lemma appends_list_read (l : loc) : appends P (list_read l).
Proof.
  intros w r w'. unfold list_read.
  destruct (store w !! l); intros [= <- <-]; exists []; by rewrite log_nil.
Qed.

Lemma appends_for_each {X} (f : X → M unit) (l : list X) :
  (∀ x, appends P (f x)) → appends P (for_each f l).
Proof.
  intros Hf. induction l as [|x l IH]; simpl.
  - apply appends_ret.
  - apply appends_bind; [apply Hf | by intros _].
Qed.

Lemma appends_when (b : bool) (m : M unit) :
  appends P m → appends P (when b m).
Proof. intros Hm. destruct b; [done | apply appends_ret]. Qed.

End appends.

(** The epochs only add epoch events. *)
Lemma appends_train_batches (E : env) (epoch batch remaining : nat) (acc : Q) :
  appends epoch_event (train_batches E epoch batch remaining acc).
Proof.
  revert batch acc. induction remaining as [|n IH]; intros batch acc; simpl.
  - apply appends_ret.
  - apply appends_bind; [by apply appends_call | intros loss; apply IH].
Qed.

Lemma appends_epochs_loop (E : env) (callbacks : loc) (c : criterion)
    (test_dataset : bool) (n remaining epoch : nat) (loss_test : option Q) :
  appends epoch_event
    (epochs_loop E callbacks c test_dataset n remaining epoch loss_test).
Proof.
  revert epoch loss_test.
  induction remaining as [|k IH]; intros epoch loss_test; simpl.
  - apply appends_ret.
  - apply appends_bind; [apply appends_train_batches|]. intros loss_train.
    apply appends_bind.
    { unfold mean_loss. destruct n; [apply appends_raise | apply appends_ret]. }
    intros mean. apply appends_bind.
    { destruct test_dataset; [|apply appends_ret].
      apply appends_bind; [by apply appends_call | intros l; apply appends_ret]. }
    intros loss_test'. apply appends_bind; [apply appends_list_read|].
    intros cs. apply appends_bind.
    { apply appends_for_each. intros cb. by apply appends_emit. }
    intros _. apply appends_bind; [by apply appends_call|].
    intros [|]; [apply appends_ret | apply IH].
Qed.

(** *** What a returning step did *)

Lemma bind_Ok {X Y : Type} (m : M X) (k : X → M Y) (w w' : world) (y : Y) :
  (m ≫= k) w = (Ok y, w') → ∃ x w1, m w = (Ok x, w1) ∧ k x w1 = (Ok y, w').
Proof.
  unfold mbind, M_bind, bind. destruct (m w) as [[x|e] w1]; [eauto | done].
Qed.

Lemma for_each_emit {X : Type} (f : X → event) (l : list X) (w : world) :
  for_each (λ x, emit (f x)) l w = (Ok tt, log (f <$> l) w).
Proof.
  revert w. induction l as [|x l IH]; intros w; simpl.
  - by rewrite log_nil.
  - unfold mbind, M_bind, bind, emit at 1. rewrite IH, log_log. done.
Qed.

Lemma list_read_Ok (l : loc) (w w' : world) (cs : list callback) :
  list_read l w = (Ok cs, w') → store w !! l = Some cs ∧ w' = w.
Proof. unfold list_read. destruct (store w !! l); naive_solver. Qed.

Lemma list_append_Ok (l : loc) (c : callback) (w w' : world) :
  list_append l c w = (Ok tt, w') →
  ∃ cs, store w !! l = Some cs
        ∧ store w' = <[l := cs ++ [c]]> (store w)
        ∧ operator_device w' = operator_device w
        ∧ trace w' = trace w.
Proof.
  unfold list_append. destruct (store w !! l) as [cs|]; [|done].
  intros [= <-]. by exists cs.
Qed.

(** [callbacks or []] is the caller's list when that is not empty, and a new
    empty list otherwise. *)
Lemma callbacks_or_new_Ok (callbacks : option loc) (w w' : world) (l : loc) :
  callbacks_or_new callbacks w = (Ok l, w') →
  operator_device w' = operator_device w
  ∧ trace w' = trace w
  ∧ ∃ base, store w' !! l = Some base
      ∧ ((callbacks = Some l ∧ base ≠ [] ∧ store w' = store w)
         ∨ (base = [] ∧ l = length (store w)
            ∧ store w' = store w ++ [[]]
            ∧ ∀ l0, callbacks = Some l0 → store w !! l0 = Some [])).
Proof.
  destruct callbacks as [l0|]; simpl.
  - intros (cs & w1 & [Hcs ->]%list_read_Ok & Hk)%bind_Ok.
    destruct cs as [|c cs].
    + injection Hk as <- <-. simpl. split_and!; [done..|]. exists [].
      split; [by rewrite lookup_app_r, Nat.sub_diag|].
      right. split_and!; [done..|]. by intros ? [= <-].
    + injection Hk as <- <-. split_and!; [done..|].
      exists (c :: cs). split; [done|]. by left.
  - intros [= <- <-]. simpl. split_and!; [done..|]. exists [].
    split; [by rewrite lookup_app_r, Nat.sub_diag|].
    right. by split_and!.
Qed.

Lemma when_list_append_Ok (b : bool) (l : loc) (c : callback) (w w' : world)
    (cs : list callback) :
  when b (list_append l c) w = (Ok tt, w') →
  store w !! l = Some cs →
  store w' = <[l := cs ++ (if b then [c] else [])]> (store w)
  ∧ operator_device w' = operator_device w
  ∧ trace w' = trace w.
Proof.
  destruct b; simpl.
  - intros (cs' & Hcs' & -> & -> & ->)%list_append_Ok Hcs.
    by replace cs' with cs by congruence.
  - intros [= <-] Hcs.
    by rewrite (right_id_L [] (++)), list_insert_id.
Qed.

(** *** The shape of a run of [fit] that returns *)

(** The list [fit] works on starts with the callbacks of the caller: it is
    the caller's list, or a new one when the caller gave none or an empty
    one. *)
Lemma callers_callbacks_base (callbacks : option loc) (w : world) (l : loc)
    (base : list callback) (st0 : list (list callback)) :
  st0 !! l = Some base →
  (callbacks = Some l ∧ base ≠ [] ∧ st0 = store w)
  ∨ (base = [] ∧ l = length (store w) ∧ st0 = store w ++ [[]]
     ∧ ∀ l0, callbacks = Some l0 → store w !! l0 = Some []) →
  base = callers_callbacks callbacks w.
Proof.
  intros Hbase [(-> & _ & ->)|(-> & _ & _ & Hempty)].
  - simpl. by rewrite Hbase.
  - destruct callbacks as [l0|]; [|done].
    simpl. by rewrite (Hempty l0).
Qed.

(** A returning [fit] works on one list object [l]: the caller's list when it
    was not empty, a new list otherwise.  It leaves in it the effective
    callbacks [cs], moves the operator to the device during the setup, calls
    [on_train_begin] on [cs], runs the epochs, calls [on_train_end] on [cs]
    and moves the operator to the CPU. *)
Lemma fit_returns (self : Trainer) (E : env) (tol : Q) (epochs : nat)
    (callbacks : option loc) (criterion : option criterion)
    (test_dataset : bool) (lr_scheduler : lr_arg) (w w' : world) :
  fit self E tol epochs callbacks criterion test_dataset lr_scheduler w
  = (Ok tt, w') →
  ∃ (l : loc) (base : list callback) (st0 : list (list callback))
    (pre post body : list event),
    let cs := base ++ internal_callbacks self epochs lr_scheduler in
    st0 !! l = Some base
    ∧ ((callbacks = Some l ∧ base ≠ [] ∧ st0 = store w)
       ∨ (base = [] ∧ l = length (store w) ∧ st0 = store w ++ [[]]
          ∧ ∀ l0, callbacks = Some l0 → store w !! l0 = Some []))
    ∧ store w' = <[l := cs]> st0
    ∧ operator_device w' = cpu
    ∧ trace w'
      = trace w
        ++ (pre ++ EOperatorTo (self_device self) :: post)
        ++ (EOnTrainBegin <$> cs)
        ++ EOperatorTrain :: body
        ++ (EOnTrainEnd <$> cs)
        ++ [EOperatorTo cpu]
    ∧ Forall setup_event pre
    ∧ Forall setup_event post
    ∧ Forall epoch_event body.
Proof.
  unfold fit. intros Hfit.
  apply bind_Ok in Hfit as (l & w1 & Hnew & Hfit).
  apply callbacks_or_new_Ok in Hnew as (Hd1 & Ht1 & base & Hbase & Hcase).
  apply bind_Ok in Hfit as ([] & w2 & Hverb & Hfit).
  apply (when_list_append_Ok _ _ _ _ _ base) in Hverb as (Hs2 & Hd2 & Ht2);
    [|done].
  apply bind_Ok in Hfit as ([] & w3 & Hlr & Hfit).
  assert (Hl : l < length (store w1)) by (by eapply lookup_lt_Some).
  assert (Hw3 : store w3
                = <[l := base ++ internal_callbacks self epochs lr_scheduler]>
                    (store w1)
                ∧ operator_device w3 = operator_device w
                ∧ trace w3 = trace w).
  { unfold internal_callbacks.
    set (v := if truthy (self_verbose self) then [PrintTrainingLoss] else [])
      in *.
    assert (Hlook : store w2 !! l = Some (base ++ v)).
    { rewrite Hs2. by apply list_lookup_insert_eq. }
    destruct lr_scheduler as [[|]|c].
    - apply list_append_Ok in Hlr as (cs' & Hcs' & -> & -> & ->).
      replace cs' with (base ++ v) by congruence.
      rewrite Hs2, list_insert_insert_eq, <- (assoc_L (++)).
      split_and!; [done | by rewrite Hd2 | by rewrite Ht2].
    - injection Hlr as <-. rewrite (right_id_L [] (++)).
      split_and!; [done | by rewrite Hd2 | by rewrite Ht2].
    - apply list_append_Ok in Hlr as (cs' & Hcs' & -> & -> & ->).
      replace cs' with (base ++ v) by congruence.
      rewrite Hs2, list_insert_insert_eq, <- (assoc_L (++)).
      split_and!; [done | by rewrite Hd2 | by rewrite Ht2]. }
  clear Hlr Hs2 Hd2 Ht2 w2.
  destruct Hw3 as (Hs3 & Hd3 & Ht3).
  set (cs := base ++ internal_callbacks self epochs lr_scheduler) in *.
  apply bind_Ok in Hfit as ([] & w4 & Hparams & Hfit).
  assert (Hp : appends setup_event
                 (when (truthy (self_verbose self))
                    (call EPrintNumParams (num_params E) ≫= λ _, mret ()))).
  { apply appends_when, appends_bind; [by apply appends_call|].
    intros _. apply appends_ret. }
  apply Hp in Hparams as (pre & -> & Hpre). clear Hp.
  apply bind_Ok in Hfit as ([] & w5 & Hto & Hfit).
  injection Hto as <-.
  set (w5 := {| store := store w3; operator_device := self_device self;
                trace := (trace w3 ++ pre) ++ [EOperatorTo (self_device self)] |})
    in *.
  apply bind_Ok in Hfit as ([] & w6 & Hddp & Hfit).
  apply (appends_when setup_event _ _ (appends_emit _ EWrapDDP I))
    in Hddp as (ev6 & -> & Hev6).
  apply bind_Ok in Hfit as ([] & w7 & Hdev & Hfit).
  apply (appends_when setup_event _ _ (appends_emit _ EPrintDevice I))
    in Hdev as (ev7 & -> & Hev7).
  apply bind_Ok in Hfit as (n & w8 & Hdl & Hfit).
  apply (appends_call setup_event EDataLoader _ I) in Hdl as (ev8 & -> & Hev8).
  rewrite !log_log in Hfit.
  apply bind_Ok in Hfit as (cs1 & w9 & [Hcs1 ->]%list_read_Ok & Hfit).
  assert (cs1 = cs) as ->.
  { simpl in Hcs1. rewrite Hs3, list_lookup_insert_eq in Hcs1 by done.
    congruence. }
  apply bind_Ok in Hfit as ([] & w10 & Hbegin & Hfit).
  rewrite for_each_emit in Hbegin. injection Hbegin as <-.
  apply bind_Ok in Hfit as ([] & w11 & Htrain & Hfit).
  injection Htrain as <-.
  apply bind_Ok in Hfit as ([] & w12 & Hloop & Hfit).
  apply appends_epochs_loop in Hloop as (body & -> & Hbody).
  rewrite !log_log in Hfit.
  apply bind_Ok in Hfit as (cs2 & w13 & [Hcs2 ->]%list_read_Ok & Hfit).
  assert (cs2 = cs) as ->.
  { simpl in Hcs2. rewrite Hs3, list_lookup_insert_eq in Hcs2 by done.
    congruence. }
  apply bind_Ok in Hfit as ([] & w14 & Hend & Hfit).
  rewrite for_each_emit in Hend. injection Hend as <-.
  injection Hfit as <-.
  exists l, base, (store w1), pre, (ev6 ++ ev7 ++ ev8), body.
  split_and!; try done.
  - simpl. rewrite Ht3, <- !(assoc_L (++)). simpl.
    by rewrite <- !(assoc_L (++)).
  - by rewrite !Forall_app.
Qed.

Lemma omap_none_Forall {X Y : Type} (P : X → Prop) (f : X → option Y)
    (l : list X) :
  Forall P l → (∀ x, P x → f x = None) → omap f l = [].
Proof.
  intros Hl Hf. induction Hl as [|x l Hx _ IH]; [done|].
  simpl. rewrite (Hf _ Hx). exact IH.
Qed.

Lemma omap_fmap_some {X Y : Type} (f : X → option Y) (g : Y → X)
    (l : list Y) :
  (∀ y, f (g y) = Some y) → omap f (g <$> l) = l.
Proof.
  intros Hfg. induction l as [|y l IH]; [done|].
  simpl. rewrite Hfg. f_equal. exact IH.
Qed.

(** C5. In every run of [fit] that returns, by exhausting the epochs or by
    an early stop, the effective callbacks [cs] are the callbacks of the
    caller followed by those [fit] appends, and the list object [fit] worked
    on holds them at the end.  The new events are: setup events;
    [on_train_begin] once on every effective callback, in list order; the
    epochs; [on_train_end] once on every effective callback, in list order;
    the move to the CPU.  So every batch comes after the [on_train_begin]
    calls and before the [on_train_end] calls, and there are no other such
    calls. *)
Theorem fit_train_begin_end_once (self : Trainer) (E : env) (tol : Q)
    (epochs : nat) (callbacks : option loc) (criterion : option criterion)
    (test_dataset : bool) (lr_scheduler : lr_arg) (w w' : world) :
  fit self E tol epochs callbacks criterion test_dataset lr_scheduler w
  = (Ok tt, w') →
  ∃ (l : loc) (cs : list callback) (setup body evs : list event),
    store w' !! l = Some cs
    ∧ cs = effective_callbacks self epochs callbacks lr_scheduler w
    ∧ trace w' = trace w ++ evs
    ∧ evs = setup
            ++ (EOnTrainBegin <$> cs)
            ++ EOperatorTrain :: body
            ++ (EOnTrainEnd <$> cs)
            ++ [EOperatorTo cpu]
    ∧ Forall (λ e, setup_event e ∨ moves_operator e) setup
    ∧ Forall epoch_event body
    ∧ train_begin_calls evs = cs
    ∧ train_end_calls evs = cs.
Proof.
  intros (l & base & st0 & pre & post & body & Hbase & Hcase & Hst & _ & Htr
          & Hpre & Hpost & Hbody)%fit_returns.
  pose proof (callers_callbacks_base _ _ _ _ _ Hbase Hcase) as Hcallers.
  set (cs := base ++ internal_callbacks self epochs lr_scheduler) in *.
  set (setup := pre ++ EOperatorTo (self_device self) :: post) in *.
  assert (Hsetup : Forall (λ e, setup_event e ∨ moves_operator e) setup).
  { apply Forall_app. split; [|apply Forall_cons; split].
    - eapply Forall_impl; [exact Hpre | by left].
    - by right.
    - eapply Forall_impl; [exact Hpost | by left]. }
  eexists l, cs, setup, body, _.
  split_and!; [|by subst cs; rewrite Hcallers|exact Htr|done..| |].
  - rewrite Hst. apply list_lookup_insert_eq. by eapply lookup_lt_Some.
  - unfold train_begin_calls. rewrite !omap_app. simpl. rewrite !omap_app.
    rewrite (omap_none_Forall _ _ _ Hsetup) by (by intros [] [?|?]).
    rewrite (omap_none_Forall _ _ _ Hbody) by (by intros []).
    rewrite (omap_fmap_some _ EOnTrainBegin) by done.
    rewrite (omap_none_Forall
               (λ e, match e with EOnTrainEnd _ => True | _ => False end)
               _ (EOnTrainEnd <$> cs));
      [simpl; by rewrite (right_id_L [] (++)) | | by intros []].
    by apply Forall_fmap, Forall_true.
  - unfold train_end_calls. rewrite !omap_app. simpl. rewrite !omap_app.
    rewrite (omap_none_Forall _ _ _ Hsetup) by (by intros [] [?|?]).
    rewrite (omap_none_Forall _ _ _ Hbody) by (by intros []).
    rewrite (omap_fmap_some _ EOnTrainEnd) by done.
    rewrite (omap_none_Forall
               (λ e, match e with EOnTrainBegin _ => True | _ => False end)
               _ (EOnTrainBegin <$> cs));
      [simpl; by rewrite (right_id_L [] (++)) | | by intros []].
    by apply Forall_fmap, Forall_true.
Qed.

(** A run that stops early: with [tol = 1/2] the criterion holds after the
    first epoch of [Runs.two_batches]. *)
Lemma fit_train_begin_end_once_witness :
  let self := init (Runs.cuda 0) PyNone in
  let w := Runs.one_callback in
  let w' :=
    (fit self Runs.two_batches (1 # 2) 3 (Some 0) None false (LrBool true) w).2 in
  ∃ (l : loc) (cs : list callback) (setup body evs : list event),
    store w' !! l = Some cs
    ∧ cs = effective_callbacks self 3 (Some 0) (LrBool true) w
    ∧ trace w' = trace w ++ evs
    ∧ evs = setup
            ++ (EOnTrainBegin <$> cs)
            ++ EOperatorTrain :: body
            ++ (EOnTrainEnd <$> cs)
            ++ [EOperatorTo cpu]
    ∧ Forall (λ e, setup_event e ∨ moves_operator e) setup
    ∧ Forall epoch_event body
    ∧ train_begin_calls evs = cs
    ∧ train_end_calls evs = cs.
Proof.
  intros self w w'.
  apply (fit_train_begin_end_once self Runs.two_batches (1 # 2) 3 (Some 0)
           None false (LrBool true) w w').
  vm_compute. reflexivity.
Defined.

(** The same run, event by event: one epoch, then the [on_train_end]
    calls. *)
Example fit_early_stop_on_epoch_1 :
  let logs := {| epoch := 1; loss_train := 4 # 8; loss_test := None |} in
  trace (fit (init (Runs.cuda 0) PyNone) Runs.two_batches (1 # 2) 3 (Some 0)
           None false (LrBool true) Runs.one_callback).2
  = [ EPrintNumParams; EOperatorTo (Runs.cuda 0); EPrintDevice; EDataLoader;
      EOnTrainBegin (UserCallback 0); EOnTrainBegin PrintTrainingLoss;
      EOnTrainBegin (LinearLRScheduler 3);
      EOperatorTrain;
      EOptimizerStep 0 0; EOptimizerStep 0 1;
      ECallback (UserCallback 0) logs; ECallback PrintTrainingLoss logs;
      ECallback (LinearLRScheduler 3) logs; ECriterion logs;
      EOnTrainEnd (UserCallback 0); EOnTrainEnd PrintTrainingLoss;
      EOnTrainEnd (LinearLRScheduler 3);
      EOperatorTo cpu ].
Proof. vm_compute. reflexivity. Qed.

(** A run that exhausts its two epochs: the criterion never holds. *)
Example fit_all_epochs :
  let logs n := {| epoch := n; loss_train := 4 # 8; loss_test := None |} in
  trace (fit (init (Runs.cuda 1) (PyBool false)) Runs.two_batches (1 # 3) 2
           (Some 0) None false (LrBool false) Runs.one_callback).2
  = [ EOperatorTo (Runs.cuda 1); EDataLoader;
      EOnTrainBegin (UserCallback 0);
      EOperatorTrain;
      EOptimizerStep 0 0; EOptimizerStep 0 1;
      ECallback (UserCallback 0) (logs 1); ECriterion (logs 1);
      EOptimizerStep 1 0; EOptimizerStep 1 1;
      ECallback (UserCallback 0) (logs 2); ECriterion (logs 2);
      EOnTrainEnd (UserCallback 0);
      EOperatorTo cpu ].
Proof. vm_compute. reflexivity. Qed.

(** C8. In every run of [fit] that returns, the operator is moved to the
    device of the trainer before anything but setup has happened, so before
    [on_train_begin] and the first batch, nothing moves it during training,
    the last thing [fit] does is to move it to the CPU, and that is where the
    operator is when [fit] returns. *)
Theorem fit_moves_operator (self : Trainer) (E : env) (tol : Q)
    (epochs : nat) (callbacks : option loc) (criterion : option criterion)
    (test_dataset : bool) (lr_scheduler : lr_arg) (w w' : world) :
  fit self E tol epochs callbacks criterion test_dataset lr_scheduler w
  = (Ok tt, w') →
  operator_device w' = cpu
  ∧ ∃ before during : list event,
      trace w' = trace w
                 ++ before
                 ++ EOperatorTo (self_device self) :: during
                 ++ [EOperatorTo cpu]
      ∧ Forall setup_event before
      ∧ Forall (λ e, ¬ moves_operator e) during
      ∧ EOperatorTrain ∈ during.
Proof.
  intros (l & base & st0 & pre & post & body & _ & _ & _ & Hdev & Htr
          & Hpre & Hpost & Hbody)%fit_returns.
  split; [done|].
  set (cs := base ++ internal_callbacks self epochs lr_scheduler) in *.
  exists pre, (post ++ (EOnTrainBegin <$> cs) ++ EOperatorTrain :: body
               ++ (EOnTrainEnd <$> cs)).
  split_and!; [|done| |].
  - rewrite Htr. f_equal. rewrite <- !(assoc_L (++)). simpl.
    by rewrite <- !(assoc_L (++)).
  - rewrite !Forall_app, Forall_cons, Forall_app. split_and!.
    + eapply Forall_impl; [exact Hpost | intros e He Hm; by destruct e].
    + apply Forall_fmap, Forall_true. by intros c Hm.
    + by intros Hm.
    + eapply Forall_impl; [exact Hbody | intros e He Hm; by destruct e].
    + apply Forall_fmap, Forall_true. by intros c Hm.
  - rewrite !elem_of_app. right. right. apply list_elem_of_here.
Qed.

Lemma fit_moves_operator_witness :
  let self := init (Runs.cuda 0) PyNone in
  let w := Runs.one_callback in
  let w' :=
    (fit self Runs.two_batches (1 # 2) 3 (Some 0) None false (LrBool true) w).2 in
  operator_device w' = cpu
  ∧ ∃ before during : list event,
      trace w' = trace w
                 ++ before
                 ++ EOperatorTo (self_device self) :: during
                 ++ [EOperatorTo cpu]
      ∧ Forall setup_event before
      ∧ Forall (λ e, ¬ moves_operator e) during
      ∧ EOperatorTrain ∈ during.
Proof.
  intros self w w'.
  apply (fit_moves_operator self Runs.two_batches (1 # 2) 3 (Some 0)
           None false (LrBool true) w w').
  vm_compute. reflexivity.
Defined.

(** C9, as stated, fails for a trainer that is not verbose when
    [lr_scheduler] is [False]: [fit] returns and the list of the caller is as
    long as before. *)
Lemma fit_callers_list_not_longer_counterexample :
  let self := init (Runs.cuda 1) (PyBool false) in
  let w := Runs.one_callback in
  let run :=
    fit self Runs.two_batches (1 # 3) 2 (Some 0) None false (LrBool false) w in
  store w !! 0 = Some [UserCallback 0]
  ∧ run.1 = Ok tt
  ∧ store run.2 !! 0 = Some [UserCallback 0]
  ∧ ¬ (length [UserCallback 0] < length (default [] (store run.2 !! 0))).
Proof. vm_compute. split_and!; [done..|lia]. Qed.

(** C9, amended.  When the caller hands [fit] a list that is not empty and
    [fit] returns, that same list object holds the callbacks of the caller
    followed by the console-logging callback when the trainer is verbose and
    by the scheduler callback unless [lr_scheduler] is [False]; no other list
    is touched and none is created.  The list is longer than before exactly
    when the trainer is verbose or [lr_scheduler] is not [False]. *)
Theorem fit_appends_to_callers_list (self : Trainer) (E : env) (tol : Q)
    (epochs : nat) (l : loc) (base : list callback)
    (criterion : option criterion) (test_dataset : bool)
    (lr_scheduler : lr_arg) (w w' : world) :
  store w !! l = Some base →
  base ≠ [] →
  fit self E tol epochs (Some l) criterion test_dataset lr_scheduler w
  = (Ok tt, w') →
  store w' = <[l := base ++ internal_callbacks self epochs lr_scheduler]> (store w)
  ∧ store w' !! l = Some (base ++ internal_callbacks self epochs lr_scheduler)
  ∧ (length base
     < length (base ++ internal_callbacks self epochs lr_scheduler)
     ↔ truthy (self_verbose self) = true ∨ lr_scheduler ≠ LrBool false).
Proof.
  intros Hl Hbase
    (l' & base' & st0 & pre & post & body & Hb' & Hcase & Hst & _)%fit_returns.
  destruct Hcase as [([= <-] & _ & ->)|(_ & _ & _ & Hempty)].
  - replace base' with base in * by congruence. split_and!; [done| |].
    + rewrite Hst. apply list_lookup_insert_eq. by eapply lookup_lt_Some.
    + rewrite length_app. unfold internal_callbacks.
      destruct (truthy (self_verbose self)), lr_scheduler as [[|]|c]; simpl.
      all: split; [intros; try (by left); try (by right); lia|].
      all: try (intros; lia).
      intros [?|?]; done.
  - specialize (Hempty l eq_refl). congruence.
Qed.

Lemma fit_appends_to_callers_list_witness :
  let self := init (Runs.cuda 0) PyNone in
  let w := Runs.one_callback in
  let w' :=
    (fit self Runs.two_batches (1 # 2) 3 (Some 0) None false (LrBool true) w).2 in
  let base := [UserCallback 0] in
  store w' = <[0 := base ++ internal_callbacks self 3 (LrBool true)]> (store w)
  ∧ store w' !! 0 = Some (base ++ internal_callbacks self 3 (LrBool true))
  ∧ (length base < length (base ++ internal_callbacks self 3 (LrBool true))
     ↔ truthy (self_verbose self) = true ∨ LrBool true ≠ LrBool false).
Proof.
  intros self w w' base.
  apply (fit_appends_to_callers_list self Runs.two_batches (1 # 2) 3 0 base
           None false (LrBool true) w w').
  - reflexivity.
  - discriminate.
  - vm_compute. reflexivity.
Defined.

(** ** More on the training loop *)

Import Epochs.

(** The batches of an epoch that goes through: one step per batch, in order,
    the losses added to the running sum. *)
Lemma train_batches_Ok (E : env) (epoch batch remaining : nat) (acc total : Q)
    (w w' : world) :
  train_batches E epoch batch remaining acc w = (Ok total, w') →
  ∃ losses : list Q,
    length losses = remaining
    ∧ (∀ i l, losses !! i = Some l → optimizer_step E epoch (batch + i) = Some l)
    ∧ total = fold_left Qplus losses acc
    ∧ w' = log (EOptimizerStep epoch <$> seq batch remaining) w.
Proof.
  revert batch acc w. induction remaining as [|n IH]; intros batch acc w; simpl.
  - intros [= <- <-]. exists []. split_and!; [done..|]. by rewrite log_nil.
  - intros (loss & w1 & Hcall & Hrest)%bind_Ok.
    unfold call in Hcall.
    apply bind_Ok in Hcall as ([] & w0 & [= <-] & Hcall).
    destruct (optimizer_step E epoch batch) as [l0|] eqn:Hstep; [|done].
    injection Hcall as <- <-.
    apply IH in Hrest as (losses & Hlen & Hsteps & -> & ->).
    exists (l0 :: losses). split_and!.
    + simpl. by rewrite Hlen.
    + intros [|i] l; simpl.
      * intros [= <-]. by rewrite Nat.add_0_r.
      * intros Hl. rewrite <- Nat.add_succ_comm. by apply Hsteps.
    + done.
    + by rewrite log_log.
Qed.

(** The epochs of a loop that goes through: some epochs are executed, each
    one as [epoch_block] says, and the loop stops on the first epoch on
    which the criterion holds, or when no epoch remains. *)
Lemma epochs_loop_Ok (E : env) (l : loc) (c : criterion) (test_dataset : bool)
    (n remaining first : nat) (loss_test : option Q) (cs : list callback)
    (w w' : world) :
  store w !! l = Some cs →
  epochs_loop E l c test_dataset n remaining first loss_test w = (Ok tt, w') →
  ∃ executed : list (list Q * option Q),
    w' = log (blocks cs test_dataset first executed) w
    ∧ length executed ≤ remaining
    ∧ (executed = [] → remaining = 0)
    ∧ ∀ i losses lt, executed !! i = Some (losses, lt) →
        0 < n
        ∧ length losses = n
        ∧ (∀ b x, losses !! b = Some x →
             optimizer_step E (first + i) b = Some x)
        ∧ lt = (if test_dataset then dataset_loss E (first + i) else loss_test)
        ∧ (test_dataset = true → is_Some lt)
        ∧ ∃ stop : bool,
            criterion_call c (epoch_logs (first + i) losses lt) = Some stop
            ∧ (stop = true → S i = length executed)
            ∧ (stop = false → S i = length executed →
               length executed = remaining).
Proof.
  revert first loss_test w.
  induction remaining as [|k IH]; intros first loss_test w Hcs; simpl.
  - intros [= <-]. exists []. rewrite log_nil. split_and!; [done..|].
    by intros i losses lt.
  - intros (total & w1 & Hbatches & Hrest)%bind_Ok.
    apply train_batches_Ok in Hbatches as (losses & Hlen & Hsteps & -> & ->).
    apply bind_Ok in Hrest as (mean & w2 & Hmean & Hrest).
    unfold mean_loss in Hmean. destruct n as [|n']; [done|].
    injection Hmean as <- <-.
    apply bind_Ok in Hrest as (lt & w3 & Htest & Hrest).
    assert (Hlt : lt = (if test_dataset then dataset_loss E first else loss_test)
                  ∧ (test_dataset = true → is_Some lt)
                  ∧ w3 = log (if test_dataset then [EDatasetLoss first] else [])
                           (log (EOptimizerStep first <$> seq 0 (S n')) w)).
    { destruct test_dataset.
      - apply bind_Ok in Htest as (x & w0 & Hcall & [= <- <-]).
        unfold call in Hcall.
        apply bind_Ok in Hcall as ([] & w00 & [= <-] & Hcall).
        destruct (dataset_loss E first) as [x0|]; [|done].
        injection Hcall as <- <-. by split_and!.
      - injection Htest as <- <-. rewrite log_nil. by split_and!. }
    destruct Hlt as (Hlt & Hsome & ->).
    apply bind_Ok in Hrest as (cs' & w4 & [Hcs' ->]%list_read_Ok & Hrest).
    simpl in Hcs'. replace cs' with cs in * by congruence. clear Hcs'.
    apply bind_Ok in Hrest as ([] & w5 & Hcb & Hrest).
    rewrite for_each_emit in Hcb. injection Hcb as <-.
    apply bind_Ok in Hrest as (stop & w6 & Hcrit & Hrest).
    unfold call in Hcrit.
    apply bind_Ok in Hcrit as ([] & w60 & [= <-] & Hcrit).
    set (logs := {| epoch := first + 1;
                    loss_train := (fold_left Qplus losses 0
                                   / inject_Z (Z.of_nat (S n')))%Q;
                    loss_test := lt |}) in *.
    assert (Hlogs : logs = epoch_logs first losses lt).
    { unfold logs, epoch_logs, mean_of. by rewrite Hlen. }
    destruct (criterion_call c logs) as [stop'|] eqn:Hstop; [|done].
    injection Hcrit as <- <-.
    assert (Hblock : ∀ w0,
      log [ECriterion logs]
        (log ((λ c0, ECallback c0 logs) <$> cs)
           (log (if test_dataset then [EDatasetLoss first] else [])
              (log (EOptimizerStep first <$> seq 0 (S n')) w0)))
      = log (epoch_block cs test_dataset first losses lt) w0).
    { intros w0. rewrite !log_log. unfold epoch_block.
      by rewrite Hlen, <- Hlogs, <- ?(assoc_L (++)). }
    rewrite Hblock in Hrest. rewrite Hlogs in Hstop.
    assert (Hfirst : ∀ stop0 : bool, stop' = stop0 →
      0 < S n' ∧ length losses = S n'
      ∧ (∀ b x, losses !! b = Some x → optimizer_step E (first + 0) b = Some x)
      ∧ lt = (if test_dataset then dataset_loss E (first + 0) else loss_test)
      ∧ (test_dataset = true → is_Some lt)
      ∧ criterion_call c (epoch_logs (first + 0) losses lt) = Some stop0).
    { intros stop0 <-. rewrite Nat.add_0_r.
      split_and!; [lia|done| |done..]. intros b x Hb. by apply (Hsteps b x). }
    destruct stop'.
    + injection Hrest as <-. exists [(losses, lt)]. simpl.
      rewrite (right_id_L [] (++)). split_and!; [done|lia|done|].
      intros [|i] losses' lt'; [|done]. intros [= <- <-].
      destruct (Hfirst true eq_refl) as (?&?&?&?&?&?).
      split_and!; [done..|]. exists true. by split_and!.
    + apply IH in Hrest as (rest & -> & Hle & Hnil & Hrest); [|done].
      exists ((losses, lt) :: rest). simpl. rewrite log_log.
      split_and!; [done|lia|done|].
      intros [|i] losses' lt'; simpl.
      * intros [= <- <-].
        destruct (Hfirst false eq_refl) as (?&?&?&?&?&?).
        split_and!; [done..|]. exists false. split_and!; [done..|].
        intros _ Hone. destruct rest; [|simpl in Hone; lia].
        simpl. by rewrite (Hnil eq_refl).
      * intros Hi. destruct (Hrest _ _ _ Hi)
          as (Hn & Hl & Hst & Hlt' & Hs' & stop & Hc & Ht & Hf).
        rewrite <- Nat.add_succ_comm. split_and!; [done..| |done|].
        { rewrite Hlt', Hlt. by destruct test_dataset. }
        exists stop. split_and!; [done|intros; f_equal; by apply Ht|].
        intros Hfalse [= Hlast]. f_equal. by apply Hf.
Qed.

Lemma call_Ok {X : Type} (e : event) (r : option X) (x : X) (w w' : world) :
  call e r w = (Ok x, w') → r = Some x ∧ w' = log [e] w.
Proof.
  unfold call. intros ([] & w0 & [= <-] & Hr)%bind_Ok.
  destruct r as [x0|]; [|done]. by injection Hr as <- <-.
Qed.

(** A returning [fit], with its epochs spelled out: [fit_returns] where the
    events of the loop are those of the executed epochs. *)
Lemma fit_returns_epochs (self : Trainer) (E : env) (tol : Q) (epochs : nat)
    (callbacks : option loc) (criterion : option criterion)
    (test_dataset : bool) (lr_scheduler : lr_arg) (w w' : world) :
  fit self E tol epochs callbacks criterion test_dataset lr_scheduler w
  = (Ok tt, w') →
  ∃ (l : loc) (base : list callback) (st0 : list (list callback))
    (pre post : list event) (n : nat) (executed : list (list Q * option Q)),
    let cs := base ++ internal_callbacks self epochs lr_scheduler in
    let c := default_criterion criterion test_dataset tol in
    st0 !! l = Some base
    ∧ ((callbacks = Some l ∧ base ≠ [] ∧ st0 = store w)
       ∨ (base = [] ∧ l = length (store w) ∧ st0 = store w ++ [[]]
          ∧ ∀ l0, callbacks = Some l0 → store w !! l0 = Some []))
    ∧ store w' = <[l := cs]> st0
    ∧ operator_device w' = cpu
    ∧ trace w'
      = trace w
        ++ (pre ++ EOperatorTo (self_device self) :: post)
        ++ (EOnTrainBegin <$> cs)
        ++ EOperatorTrain :: blocks cs test_dataset 0 executed
        ++ (EOnTrainEnd <$> cs)
        ++ [EOperatorTo cpu]
    ∧ Forall setup_event pre
    ∧ Forall setup_event post
    ∧ data_loader E = Some n
    ∧ length executed ≤ epochs
    ∧ (executed = [] → epochs = 0)
    ∧ ∀ i losses lt, executed !! i = Some (losses, lt) →
        0 < n
        ∧ length losses = n
        ∧ (∀ b x, losses !! b = Some x → optimizer_step E i b = Some x)
        ∧ lt = (if test_dataset then dataset_loss E i else None)
        ∧ (test_dataset = true → is_Some lt)
        ∧ ∃ stop : bool,
            criterion_call c (epoch_logs i losses lt) = Some stop
            ∧ (stop = true → S i = length executed)
            ∧ (stop = false → S i = length executed →
               length executed = epochs).
Proof.
  unfold fit. intros Hfit.
  apply bind_Ok in Hfit as (l & w1 & Hnew & Hfit).
  apply callbacks_or_new_Ok in Hnew as (Hd1 & Ht1 & base & Hbase & Hcase).
  apply bind_Ok in Hfit as ([] & w2 & Hverb & Hfit).
  apply (when_list_append_Ok _ _ _ _ _ base) in Hverb as (Hs2 & Hd2 & Ht2);
    [|done].
  apply bind_Ok in Hfit as ([] & w3 & Hlr & Hfit).
  assert (Hl : l < length (store w1)) by (by eapply lookup_lt_Some).
  assert (Hw3 : store w3
                = <[l := base ++ internal_callbacks self epochs lr_scheduler]>
                    (store w1)
                ∧ operator_device w3 = operator_device w
                ∧ trace w3 = trace w).
  { unfold internal_callbacks.
    set (v := if truthy (self_verbose self) then [PrintTrainingLoss] else [])
      in *.
    assert (Hlook : store w2 !! l = Some (base ++ v)).
    { rewrite Hs2. by apply list_lookup_insert_eq. }
    destruct lr_scheduler as [[|]|c].
    - apply list_append_Ok in Hlr as (cs' & Hcs' & -> & -> & ->).
      replace cs' with (base ++ v) by congruence.
      rewrite Hs2, list_insert_insert_eq, <- (assoc_L (++)).
      split_and!; [done | by rewrite Hd2 | by rewrite Ht2].
    - injection Hlr as <-. rewrite (right_id_L [] (++)).
      split_and!; [done | by rewrite Hd2 | by rewrite Ht2].
    - apply list_append_Ok in Hlr as (cs' & Hcs' & -> & -> & ->).
      replace cs' with (base ++ v) by congruence.
      rewrite Hs2, list_insert_insert_eq, <- (assoc_L (++)).
      split_and!; [done | by rewrite Hd2 | by rewrite Ht2]. }
  clear Hlr Hs2 Hd2 Ht2 w2.
  destruct Hw3 as (Hs3 & Hd3 & Ht3).
  set (cs := base ++ internal_callbacks self epochs lr_scheduler) in *.
  apply bind_Ok in Hfit as ([] & w4 & Hparams & Hfit).
  assert (Hp : appends setup_event
                 (when (truthy (self_verbose self))
                    (call EPrintNumParams (num_params E) ≫= λ _, mret ()))).
  { apply appends_when, appends_bind; [by apply appends_call|].
    intros _. apply appends_ret. }
  apply Hp in Hparams as (pre & -> & Hpre). clear Hp.
  apply bind_Ok in Hfit as ([] & w5 & Hto & Hfit).
  injection Hto as <-.
  set (w5 := {| store := store w3; operator_device := self_device self;
                trace := (trace w3 ++ pre) ++ [EOperatorTo (self_device self)] |})
    in *.
  apply bind_Ok in Hfit as ([] & w6 & Hddp & Hfit).
  apply (appends_when setup_event _ _ (appends_emit _ EWrapDDP I))
    in Hddp as (ev6 & -> & Hev6).
  apply bind_Ok in Hfit as ([] & w7 & Hdev & Hfit).
  apply (appends_when setup_event _ _ (appends_emit _ EPrintDevice I))
    in Hdev as (ev7 & -> & Hev7).
  apply bind_Ok in Hfit as (n & w8 & Hdl & Hfit).
  apply call_Ok in Hdl as (Hn & ->).
  assert (Hev8 : Forall setup_event [EDataLoader]) by (by constructor).
  set (ev8 := [EDataLoader]) in *.
  rewrite !log_log in Hfit.
  apply bind_Ok in Hfit as (cs1 & w9 & [Hcs1 ->]%list_read_Ok & Hfit).
  assert (cs1 = cs) as ->.
  { simpl in Hcs1. rewrite Hs3, list_lookup_insert_eq in Hcs1 by done.
    congruence. }
  apply bind_Ok in Hfit as ([] & w10 & Hbegin & Hfit).
  rewrite for_each_emit in Hbegin. injection Hbegin as <-.
  apply bind_Ok in Hfit as ([] & w11 & Htrain & Hfit).
  injection Htrain as <-.
  apply bind_Ok in Hfit as ([] & w12 & Hloop & Hfit).
  apply (epochs_loop_Ok _ _ _ _ _ _ _ _ cs) in Hloop
    as (executed & -> & Hle & Hnil & Hex).
  2:{ simpl. rewrite Hs3. by apply list_lookup_insert_eq. }
  rewrite !log_log in Hfit.
  apply bind_Ok in Hfit as (cs2 & w13 & [Hcs2 ->]%list_read_Ok & Hfit).
  assert (cs2 = cs) as ->.
  { simpl in Hcs2. rewrite Hs3, list_lookup_insert_eq in Hcs2 by done.
    congruence. }
  apply bind_Ok in Hfit as ([] & w14 & Hend & Hfit).
  rewrite for_each_emit in Hend. injection Hend as <-.
  injection Hfit as <-.
  exists l, base, (store w1), pre, (ev6 ++ ev7 ++ ev8), n, executed.
  split_and!; try done.
  - simpl. rewrite Ht3, <- !(assoc_L (++)). simpl.
    by rewrite <- !(assoc_L (++)).
  - by rewrite !Forall_app.
Qed.



(** X1. What the epochs of a returning run are made of.  Between the
    [on_train_begin] and the [on_train_end] calls the events are those of the
    executed epochs, one [epoch_block] each: one optimizer step per batch of
    the data loader, in order; the test loss if and only if there is a test
    dataset; each effective callback once, in list order, the effective
    callbacks being the callbacks of the caller followed by those [fit]
    appends; the criterion.
    The callbacks and the criterion of an epoch get one and the same record:
    its epoch number counts from 1, its training loss is the mean of the
    losses the optimizer steps of that epoch returned, its test loss is the
    one just computed, or [None] without a test dataset. *)
Theorem fit_epochs (self : Trainer) (E : env) (tol : Q) (epochs : nat)
    (callbacks : option loc) (criterion : option criterion)
    (test_dataset : bool) (lr_scheduler : lr_arg) (w w' : world) :
  fit self E tol epochs callbacks criterion test_dataset lr_scheduler w
  = (Ok tt, w') →
  ∃ (l : loc) (cs : list callback) (setup : list event) (n : nat)
    (executed : list (list Q * option Q)),
    store w' !! l = Some cs
    ∧ cs = effective_callbacks self epochs callbacks lr_scheduler w
    ∧ data_loader E = Some n
    ∧ trace w'
      = trace w
        ++ setup
        ++ (EOnTrainBegin <$> cs)
        ++ EOperatorTrain :: blocks cs test_dataset 0 executed
        ++ (EOnTrainEnd <$> cs)
        ++ [EOperatorTo cpu]
    ∧ Forall (λ e, setup_event e ∨ moves_operator e) setup
    ∧ ∀ i losses lt, executed !! i = Some (losses, lt) →
        length losses = n
        ∧ 0 < n
        ∧ (∀ b x, losses !! b = Some x → optimizer_step E i b = Some x)
        ∧ lt = (if test_dataset then dataset_loss E i else None).
Proof.
  intros (l & base & st0 & pre & post & n & executed & Hbase & Hcase & Hst & _
          & Htr & Hpre & Hpost & Hn & _ & _ & Hex)%fit_returns_epochs.
  pose proof (callers_callbacks_base _ _ _ _ _ Hbase Hcase) as Hcallers.
  set (cs := base ++ internal_callbacks self epochs lr_scheduler) in *.
  exists l, cs, (pre ++ EOperatorTo (self_device self) :: post), n, executed.
  split_and!; [|by subst cs; rewrite Hcallers|done|done| |].
  - rewrite Hst. apply list_lookup_insert_eq. by eapply lookup_lt_Some.
  - apply Forall_app. split; [|apply Forall_cons; split].
    + eapply Forall_impl; [exact Hpre | by left].
    + by right.
    + eapply Forall_impl; [exact Hpost | by left].
  - intros i losses lt Hi.
    destruct (Hex _ _ _ Hi) as (?&?&?&?&_). by split_and!.
Qed.

Lemma fit_epochs_witness :
  let self := init (Runs.cuda 1) (PyBool false) in
  let w := Runs.one_callback in
  let w' :=
    (fit self Runs.two_batches (1 # 3) 2 (Some 0) None true (LrBool false) w).2 in
  ∃ (l : loc) (cs : list callback) (setup : list event) (n : nat)
    (executed : list (list Q * option Q)),
    store w' !! l = Some cs
    ∧ cs = effective_callbacks self 2 (Some 0) (LrBool false) w
    ∧ data_loader Runs.two_batches = Some n
    ∧ trace w'
      = trace w
        ++ setup
        ++ (EOnTrainBegin <$> cs)
        ++ EOperatorTrain :: blocks cs true 0 executed
        ++ (EOnTrainEnd <$> cs)
        ++ [EOperatorTo cpu]
    ∧ Forall (λ e, setup_event e ∨ moves_operator e) setup
    ∧ ∀ i losses lt, executed !! i = Some (losses, lt) →
        length losses = n
        ∧ 0 < n
        ∧ (∀ b x, losses !! b = Some x →
             optimizer_step Runs.two_batches i b = Some x)
        ∧ lt = dataset_loss Runs.two_batches i.
Proof.
  intros self w w'.
  apply (fit_epochs self Runs.two_batches (1 # 3) 2 (Some 0) None true
           (LrBool false) w w').
  vm_compute. reflexivity.
Defined.

(** X2. The stopping rule of a returning run, for a number of epochs that is
    not negative.  At most [epochs] epochs are executed, and none only if
    [epochs] is 0.  The criterion answers on the record of every executed
    epoch; the answer is [False] on every epoch but the last, and when fewer
    than [epochs] epochs were executed it is [True] on the last one: the loop
    stops on the first epoch on which the criterion holds and never trains
    past it.  The callbacks of the run are the callbacks of the caller
    followed by those [fit] appends. *)
Theorem fit_stops_on_criterion (self : Trainer) (E : env) (tol : Q)
    (epochs : Z) (callbacks : option loc) (criterion : option criterion)
    (test_dataset : bool) (lr_scheduler : lr_arg) (w w' : world) :
  (0 ≤ epochs)%Z →
  fit self E tol (Z.to_nat epochs) callbacks criterion test_dataset
    lr_scheduler w
  = (Ok tt, w') →
  ∃ (l : loc) (cs : list callback) (setup : list event)
    (executed : list (list Q * option Q)),
    let c := default_criterion criterion test_dataset tol in
    store w' !! l = Some cs
    ∧ cs = effective_callbacks self (Z.to_nat epochs) callbacks lr_scheduler w
    ∧ trace w'
      = trace w
        ++ setup
        ++ (EOnTrainBegin <$> cs)
        ++ EOperatorTrain :: blocks cs test_dataset 0 executed
        ++ (EOnTrainEnd <$> cs)
        ++ [EOperatorTo cpu]
    ∧ (Z.of_nat (length executed) ≤ epochs)%Z
    ∧ (executed = [] ↔ epochs = 0%Z)
    ∧ ∀ i losses lt, executed !! i = Some (losses, lt) →
        ∃ stop : bool,
          criterion_call c (epoch_logs i losses lt) = Some stop
          ∧ (S i < length executed → stop = false)
          ∧ (S i = length executed →
             (Z.of_nat (length executed) < epochs)%Z → stop = true).
Proof.
  intros Hepochs.
  intros (l & base & st0 & pre & post & n & executed & Hbase & Hcase & Hst & _
          & Htr & _ & _ & _ & Hle & Hnil & Hex)%fit_returns_epochs.
  pose proof (callers_callbacks_base _ _ _ _ _ Hbase Hcase) as Hcallers.
  set (cs := base ++ internal_callbacks self (Z.to_nat epochs) lr_scheduler)
    in *.
  exists l, cs, (pre ++ EOperatorTo (self_device self) :: post), executed.
  split_and!; [|by subst cs; rewrite Hcallers|done|lia| |].
  - rewrite Hst. apply list_lookup_insert_eq. by eapply lookup_lt_Some.
  - split; [intros He; specialize (Hnil He); lia|].
    intros ->. destruct executed; [done|simpl in Hle; lia].
  - intros i losses lt Hi.
    destruct (Hex _ _ _ Hi) as (_&_&_&_&_& stop & Hc & Ht & Hf).
    exists stop. split_and!; [done| |].
    + intros Hlt. destruct stop; [|done]. specialize (Ht eq_refl). lia.
    + intros Hlast Hlt. destruct stop; [done|].
      specialize (Hf eq_refl Hlast). lia.
Qed.

Lemma fit_stops_on_criterion_witness :
  let self := init (Runs.cuda 0) PyNone in
  let w := Runs.one_callback in
  let w' :=
    (fit self Runs.two_batches (1 # 2) 3 (Some 0) None false (LrBool true) w).2 in
  ∃ (l : loc) (cs : list callback) (setup : list event)
    (executed : list (list Q * option Q)),
    let c := default_criterion None false (1 # 2) in
    store w' !! l = Some cs
    ∧ cs = effective_callbacks self 3 (Some 0) (LrBool true) w
    ∧ trace w'
      = trace w
        ++ setup
        ++ (EOnTrainBegin <$> cs)
        ++ EOperatorTrain :: blocks cs false 0 executed
        ++ (EOnTrainEnd <$> cs)
        ++ [EOperatorTo cpu]
    ∧ (Z.of_nat (length executed) ≤ 3)%Z
    ∧ (executed = [] ↔ 3%Z = 0%Z)
    ∧ ∀ i losses lt, executed !! i = Some (losses, lt) →
        ∃ stop : bool,
          criterion_call c (epoch_logs i losses lt) = Some stop
          ∧ (S i < length executed → stop = false)
          ∧ (S i = length executed →
             (Z.of_nat (length executed) < 3)%Z → stop = true).
Proof.
  intros self w w'.
  apply (fit_stops_on_criterion self Runs.two_batches (1 # 2) 3%Z (Some 0) None
           false (LrBool true) w w').
  - lia.
  - vm_compute. reflexivity.
Defined.

(** X3. Without a list of the caller, or with an empty one, [fit] works on a
    list of its own: when it returns, every list that existed before is as it
    was, the empty list of the caller included, and the one new list holds
    the console-logging callback when the trainer is verbose and the
    scheduler callback unless [lr_scheduler] is [False]. *)
Theorem fit_fresh_list (self : Trainer) (E : env) (tol : Q) (epochs : nat)
    (callbacks : option loc) (criterion : option criterion)
    (test_dataset : bool) (lr_scheduler : lr_arg) (w w' : world) :
  callbacks = None ∨ (∃ l0, callbacks = Some l0 ∧ store w !! l0 = Some []) →
  fit self E tol epochs callbacks criterion test_dataset lr_scheduler w
  = (Ok tt, w') →
  store w' = store w ++ [internal_callbacks self epochs lr_scheduler].
Proof.
  intros Hcb
    (l & base & st0 & pre & post & body & Hb & Hcase & Hst & _)%fit_returns.
  destruct Hcase as [(-> & Hne & ->)|(-> & -> & -> & _)].
  - destruct Hcb as [[=]|(l0 & [= <-] & Hl0)]. congruence.
  - rewrite Hst. simpl.
    rewrite insert_app_r_alt, Nat.sub_diag by done. done.
Qed.

Lemma fit_fresh_list_witness :
  let self := init (Runs.cuda 0) PyNone in
  let w := {| store := [[]]; operator_device := cpu; trace := [] |} in
  let w' :=
    (fit self Runs.two_batches (1 # 2) 3 (Some 0) None false (LrBool true) w).2 in
  store w' = [[]] ++ [internal_callbacks self 3 (LrBool true)].
Proof.
  intros self w w'.
  apply (fit_fresh_list self Runs.two_batches (1 # 2) 3 (Some 0) None false
           (LrBool true) w w').
  - right. exists 0. split; reflexivity.
  - vm_compute. reflexivity.
Defined.

(** X4. On a data loader without batches [fit] cannot get through its first
    epoch: with at least one epoch to run it raises (the division by
    [len(data_loader)] of line 167) instead of returning. *)
Theorem fit_empty_loader_raises (self : Trainer) (E : env) (tol : Q)
    (epochs : nat) (callbacks : option loc) (criterion : option criterion)
    (test_dataset : bool) (lr_scheduler : lr_arg) (w : world) :
  data_loader E = Some 0 →
  0 < epochs →
  ∃ e w',
    fit self E tol epochs callbacks criterion test_dataset lr_scheduler w
    = (Raise e, w').
Proof.
  intros Hdl Hep.
  destruct (fit self E tol epochs callbacks criterion test_dataset
              lr_scheduler w) as [[[]|e] w'] eqn:Hfit; [|by eauto].
  apply fit_returns_epochs in Hfit
    as (l & base & st0 & pre & post & n & executed & _ & _ & _ & _ & _ & _ & _
        & Hn & _ & Hnil & Hex).
  destruct executed as [|[losses lt] rest].
  - specialize (Hnil eq_refl). lia.
  - destruct (Hex 0 losses lt eq_refl) as (Hpos & _).
    rewrite Hdl in Hn. injection Hn as <-. lia.
Qed.

Lemma fit_empty_loader_raises_witness :
  let E := {| num_params := Some 3; distributed := false;
              data_loader := Some 0;
              optimizer_step := λ _ _, Some (1 # 2)%Q;
              dataset_loss := λ _, Some 1%Q |} in
  ∃ e w',
    fit (init (Runs.cuda 0) PyNone) E (1 # 2) 3 (Some 0) None false
      (LrBool true) Runs.one_callback
    = (Raise e, w').
Proof.
  intros E.
  apply (fit_empty_loader_raises (init (Runs.cuda 0) PyNone) E (1 # 2) 3
           (Some 0) None false (LrBool true) Runs.one_callback).
  - reflexivity.
  - lia.
Defined.

(** *** Runs that raise *)

Section invariants.
Context (I : world → Prop).

Lemma keeps_ret {X} (x : X) : keeps I (mret x).
Proof. by intros w r w' Hw [= <- <-]. Qed.

Lemma keeps_bind {X Y} (m : M X) (k : X → M Y) :
  keeps I m → (∀ x, keeps I (k x)) → keeps I (m ≫= k).
Proof.
  intros Hm Hk w r w' Hw. unfold mbind, M_bind, bind.
  destruct (m w) as [[x|e] w1] eqn:Hmw.
  - intros Hkw. eapply Hk; [|exact Hkw]. by eapply Hm.
  - intros [= <- <-]. by eapply Hm.
Qed.

Lemma keeps_when (b : bool) (m : M unit) : keeps I m → keeps I (when b m).
Proof. intros Hm. destruct b; [done | apply keeps_ret]. Qed.

Lemma keeps_when_raising_bind {X Y} (m : M X) (k : X → M Y) :
  keeps I m → (∀ x, keeps_when_raising I (k x)) →
  keeps_when_raising I (m ≫= k).
Proof.
  intros Hm Hk w e w' Hw. unfold mbind, M_bind, bind.
  destruct (m w) as [[x|e0] w1] eqn:Hmw.
  - intros Hkw. eapply Hk; [|exact Hkw]. by eapply Hm.
  - intros [= <- <-]. by eapply Hm.
Qed.

(** The end of [fit], lines 190-195, raises in no world in which it has
    done anything. *)
Lemma keeps_when_raising_end (l : loc) :
  keeps_when_raising I
    (list_read l ≫= λ cs,
       for_each (λ c, emit (EOnTrainEnd c)) cs ≫= λ _, operator_to cpu).
Proof.
  intros w e w' Hw. unfold mbind, M_bind, bind, list_read.
  destruct (store w !! l) as [cs|]; [|by intros [= <- <-]].
  by rewrite for_each_emit.
Qed.

End invariants.

Section no_cleanup.
Context (dev : device) (w0 : world).

Lemma no_cleanup_same (w w' : world) :
  trace w' = trace w → operator_device w' = operator_device w →
  no_cleanup dev w0 w → no_cleanup dev w0 w'.
Proof. intros Ht Hd (evs & ? & ? & ?). exists evs. by rewrite Ht, Hd. Qed.

Lemma no_cleanup_log (evs : list event) (w : world) :
  Forall quiet evs → no_cleanup dev w0 w → no_cleanup dev w0 (log evs w).
Proof.
  intros Hq (evs0 & Ht & Hend & Hdev). exists (evs0 ++ evs). simpl.
  split_and!.
  - by rewrite Ht, (assoc_L (++)).
  - unfold train_end_calls in *. rewrite omap_app, Hend. simpl.
    apply (omap_none_Forall _ _ _ Hq). by intros [].
  - destruct Hdev as [?|[? Hmv]]; [by left|right]. split; [done|].
    apply Forall_app. split; [done|].
    eapply Forall_impl; [exact Hq|]. intros e0 He Hm. by destruct e0.
Qed.

Lemma keeps_appends {X} (P : event → Prop) (m : M X) :
  (∀ e, P e → quiet e) → appends P m → keeps (no_cleanup dev w0) m.
Proof.
  intros HP Hm w r w' Hw (evs & -> & Hevs)%Hm.
  apply no_cleanup_log; [|done]. by eapply Forall_impl.
Qed.

Lemma keeps_list_append (l : loc) (c : callback) :
  keeps (no_cleanup dev w0) (list_append l c).
Proof.
  intros w r w' Hw. unfold list_append.
  destruct (store w !! l); intros [= <- <-]; [|done].
  by eapply no_cleanup_same.
Qed.

Lemma keeps_callbacks_or_new (callbacks : option loc) :
  keeps (no_cleanup dev w0) (callbacks_or_new callbacks).
Proof.
  assert (Hnew : keeps (no_cleanup dev w0) new_list).
  { intros w r w' Hw [= <- <-]. by eapply no_cleanup_same. }
  destruct callbacks as [l|]; simpl; [|done].
  apply keeps_bind.
  - apply (keeps_appends (λ _, False)); [done|apply appends_list_read].
  - intros [|c cs]; [done | apply keeps_ret].
Qed.

Lemma keeps_operator_to : keeps (no_cleanup dev w0) (operator_to dev).
Proof.
  intros w r w' (evs & Ht & Hend & _) [= <- <-].
  exists (evs ++ [EOperatorTo dev]). simpl. split_and!.
  - by rewrite Ht, (assoc_L (++)).
  - unfold train_end_calls in *. by rewrite omap_app, Hend.
  - by left.
Qed.

End no_cleanup.

(** X5. [fit] has no cleanup on the way of an exception that comes up
    before line 190.  The calls that can raise here are those [env] answers
    and those the data decide: [num_params], the [DataLoader], an optimizer
    step, the division by the number of batches of an empty loader, the test
    loss, the criterion, and reading the list of the caller; the hooks of the
    callbacks, the prints and [operator.to] are taken to return.  In every
    such run of [fit] that raises, [on_train_end] has been called on no
    callback, and the operator is not moved back: it is on the device of the
    trainer, or it was not moved at all. *)
Theorem fit_raises_without_cleanup (self : Trainer) (E : env) (tol : Q)
    (epochs : nat) (callbacks : option loc) (criterion : option criterion)
    (test_dataset : bool) (lr_scheduler : lr_arg) (w w' : world) (e : error) :
  fit self E tol epochs callbacks criterion test_dataset lr_scheduler w
  = (Raise e, w') →
  ∃ evs,
    trace w' = trace w ++ evs
    ∧ train_end_calls evs = []
    ∧ (operator_device w' = self_device self
       ∨ (operator_device w' = operator_device w
          ∧ Forall (λ e, ¬ moves_operator e) evs)).
Proof.
  intros Hfit.
  assert (Hw : no_cleanup (self_device self) w w).
  { exists []. rewrite (right_id_L [] (++)). split_and!; [done..|]. by right. }
  enough (Hk : keeps_when_raising (no_cleanup (self_device self) w)
                 (fit self E tol epochs callbacks criterion test_dataset
                    lr_scheduler)) by exact (Hk w e w' Hw Hfit).
  clear Hfit Hw. unfold fit.
  assert (Hsetup : ∀ e0, setup_event e0 → quiet e0) by (by intros []).
  assert (Hepoch : ∀ e0, epoch_event e0 → quiet e0) by (by intros []).
  apply keeps_when_raising_bind; [apply keeps_callbacks_or_new|]. intros l.
  apply keeps_when_raising_bind; [apply keeps_when, keeps_list_append|].
  intros _.
  apply keeps_when_raising_bind.
  { destruct lr_scheduler as [[|]|c];
      [apply keeps_list_append | apply keeps_ret | apply keeps_list_append]. }
  intros _.
  apply keeps_when_raising_bind.
  { apply (keeps_appends _ _ setup_event); [done|].
    apply appends_when, appends_bind; [by apply appends_call|].
    intros _. apply appends_ret. }
  intros _.
  apply keeps_when_raising_bind; [apply keeps_operator_to|]. intros _.
  apply keeps_when_raising_bind.
  { apply (keeps_appends _ _ setup_event); [done|].
    by apply appends_when, appends_emit. }
  intros _.
  apply keeps_when_raising_bind.
  { apply (keeps_appends _ _ setup_event); [done|].
    by apply appends_when, appends_emit. }
  intros _.
  apply keeps_when_raising_bind.
  { apply (keeps_appends _ _ setup_event); [done|]. by apply appends_call. }
  intros n.
  apply keeps_when_raising_bind.
  { apply (keeps_appends _ _ setup_event); [done|]. apply appends_list_read. }
  intros cs.
  apply keeps_when_raising_bind.
  { apply (keeps_appends _ _ quiet); [done|].
    apply appends_for_each. intros c. by apply appends_emit. }
  intros _.
  apply keeps_when_raising_bind.
  { apply (keeps_appends _ _ quiet); [done|]. by apply appends_emit. }
  intros _.
  apply keeps_when_raising_bind.
  { apply (keeps_appends _ _ epoch_event); [done|]. apply appends_epochs_loop. }
  intros _. apply keeps_when_raising_end.
Qed.

(** A run in which the third optimizer step raises: the operator stays on
    the device. *)
Lemma fit_raises_without_cleanup_witness :
  let self := init (Runs.cuda 0) PyNone in
  let E := {| num_params := Some 3; distributed := false;
              data_loader := Some 2;
              optimizer_step := λ epoch _, if epoch is 0 then Some 1%Q else None;
              dataset_loss := λ _, Some 1%Q |} in
  let w := Runs.one_callback in
  let w' :=
    (fit self E (1 # 2) 3 (Some 0) None false (LrBool true) w).2 in
  ∃ evs,
    trace w' = trace w ++ evs
    ∧ train_end_calls evs = []
    ∧ (operator_device w' = self_device self
       ∨ (operator_device w' = operator_device w
          ∧ Forall (λ e, ¬ moves_operator e) evs)).
Proof.
  intros self E w w'.
  apply (fit_raises_without_cleanup self E (1 # 2) 3 (Some 0) None false
           (LrBool true) w w' RuntimeFault).
  vm_compute. reflexivity.
Defined.

(** ** More on the mean-squared-error loss *)

(** X6. [MSELoss.__call__] sees the prediction only through its entries: the
    reshape of line 77 throws the shape of the prediction away, so two
    operators whose predictions have the same entries in row-major order get
    the same loss, or the same reshape error, whatever the shapes of their
    predictions. *)
Theorem MSELoss_call_ignores_prediction_shape (op1 op2 : Operator)
    (x u y v p1 p2 : Tensor) :
  op1 x u y = Ok p1 →
  op2 x u y = Ok p2 →
  data p1 = data p2 →
  MSELoss_call op1 x u y v = MSELoss_call op2 x u y v.
Proof.
  intros H1 H2 Hdata. unfold MSELoss_call, reshape, numel.
  rewrite H1, H2, Hdata. by case_decide.
Qed.

Lemma MSELoss_call_ignores_prediction_shape_witness :
  let v := {| shape := [1; 2; 2]; data := [1; 2; 3; 4]%Q |} in
  let op1 : Operator := λ _ _ _, Ok {| shape := [1; 4]; data := [1; 2; 3; 5]%Q |} in
  let op2 : Operator := λ _ _ _, Ok {| shape := [2; 2; 1]; data := [1; 2; 3; 5]%Q |} in
  MSELoss_call op1 v v v v = MSELoss_call op2 v v v v.
Proof.
  intros v op1 op2.
  by apply (MSELoss_call_ignores_prediction_shape op1 op2 v v v v
              {| shape := [1; 4]; data := [1; 2; 3; 5]%Q |}
              {| shape := [2; 2; 1]; data := [1; 2; 3; 5]%Q |}).
Defined.

(** ** The convolutional network *)

Section cnn.
Import CNN.
Context (torch_accepts : conv → bool).

Lemma hidden_inl n cls width k p e :
  hidden torch_accepts n cls width k p = inl e → e = TorchError.
Proof.
  induction n as [|n IH]; simpl; [done|]. unfold Conv.
  destruct (torch_accepts _); [|by intros [= <-]].
  destruct (hidden _ n _ _ _ _) as [e'|cs]; [|done].
  intros [= <-]. by apply IH.
Qed.

Lemma hidden_inr n cls width k p cs :
  hidden torch_accepts n cls width k p = inr cs →
  cs = replicate n (mkConv cls width width k p).
Proof.
  revert cs. induction n as [|n IH]; intros cs; simpl; [by intros [= <-]|].
  unfold Conv. destruct (torch_accepts _); [|done].
  destruct (hidden _ n _ _ _ _) as [e'|cs']; [done|].
  intros [= <-]. f_equal. by apply IH.
Qed.

(** What a network that [__init__] returns looks like. *)
Lemma init_inr shapes width depth k net :
  init torch_accepts shapes width depth k = inr net →
  (1 < depth)%Z
  ∧ ∃ cls,
      ((dim (x shapes) = 1%Z ∧ cls = Conv1d)
       ∨ (dim (x shapes) = 2%Z ∧ cls = Conv2d)
       ∨ (dim (x shapes) = 3%Z ∧ cls = Conv3d))
      ∧ net = {| CNN.shapes := shapes;
                 first_layer := mkConv cls (dim (u shapes)) width k (k `div` 2);
                 hidden_layers :=
                   replicate (Z.to_nat (depth - 1))
                     (mkConv cls width width k (k `div` 2));
                 last_layer := mkConv cls width (dim (v shapes)) k (k `div` 2) |}.
Proof.
  unfold init. destruct (Z.ltb_spec 1 depth) as [Hd|Hd]; simpl; [|done].
  intros Hinit. split; [done|].
  assert (∃ cls,
    (if (dim (x shapes) =? 1)%Z then Some Conv1d
     else if (dim (x shapes) =? 2)%Z then Some Conv2d
     else if (dim (x shapes) =? 3)%Z then Some Conv3d else None) = Some cls
    ∧ ((dim (x shapes) = 1%Z ∧ cls = Conv1d)
       ∨ (dim (x shapes) = 2%Z ∧ cls = Conv2d)
       ∨ (dim (x shapes) = 3%Z ∧ cls = Conv3d))) as (cls & Hcls & Hdim).
  { destruct (Z.eqb_spec (dim (x shapes)) 1); [by eauto 6|].
    destruct (Z.eqb_spec (dim (x shapes)) 2); [by eauto 6|].
    destruct (Z.eqb_spec (dim (x shapes)) 3); [by eauto 7|].
    done. }
  rewrite Hcls in Hinit. exists cls. split; [done|]. revert Hinit.
  unfold Conv. destruct (torch_accepts _); [|done].
  destruct (hidden _ _ _ _ _ _) as [e|cs] eqn:Hh; [done|].
  apply hidden_inr in Hh as ->.
  destruct (torch_accepts _); [|done]. by intros [= <-].
Qed.

(** X8. [__init__] raises its depth assertion exactly when [depth] is at
    most 1, whatever the other arguments are: depth 1 is refused, although
    the message of the assertion says that the depth is at least one.  It
    raises its grid assertion exactly when the depth is accepted and the
    dimension of x is not 1, 2 or 3. *)
Theorem CNN_init_assertions (shapes : OperatorShapes) (width depth k : Z) :
  (init torch_accepts shapes width depth k = inl DepthAssertion
     ↔ (depth ≤ 1)%Z)
  ∧ (init torch_accepts shapes width depth k = inl GridAssertion
     ↔ (1 < depth)%Z ∧ dim (x shapes) ∉ [1; 2; 3]%Z)
  ∧ init torch_accepts shapes width 1 k = inl DepthAssertion.
Proof.
  split_and!; [| |done].
  - unfold init. destruct (Z.ltb_spec 1 depth) as [Hd|Hd]; simpl.
    + split; [|lia]. destruct (if (dim (x shapes) =? 1)%Z then _ else _); [|done].
      unfold Conv. destruct (torch_accepts _); [|done].
      destruct (hidden _ _ _ _ _ _) as [e|cs] eqn:Hh.
      { apply hidden_inl in Hh as ->. done. }
      by destruct (torch_accepts _).
    + done.
  - unfold init. destruct (Z.ltb_spec 1 depth) as [Hd|Hd]; simpl.
    + destruct (Z.eqb_spec (dim (x shapes)) 1) as [H1|H1];
        [|destruct (Z.eqb_spec (dim (x shapes)) 2) as [H2|H2];
          [|destruct (Z.eqb_spec (dim (x shapes)) 3) as [H3|H3]]].
      4:{ split; [intros _|done]. split; [done|].
          rewrite !elem_of_cons, elem_of_nil. by intros [?|[?|[?|[]]]]. }
      all: split;
        [|intros [_ Hnot]; exfalso; apply Hnot;
          rewrite !elem_of_cons; auto].
      all: unfold Conv; destruct (torch_accepts _); [|done].
      all: destruct (hidden _ _ _ _ _ _) as [e|cs] eqn:Hh;
        [apply hidden_inl in Hh as ->; done|].
      all: by destruct (torch_accepts _).
    + split; [done | lia].
Qed.

(** X9. A network that [__init__] returns has at least one hidden layer,
    [depth - 1] of them, so [depth + 1] convolutions in all.  They compose:
    the first one takes the [u.dim] channels of the input, every convolution
    takes the channels its predecessor gives, the last one gives [v.dim]
    channels.  All of them have the kernel size asked for and the padding
    [kernel_size // 2]. *)
Theorem CNN_init_layers (shapes : OperatorShapes) (width depth k : Z)
    (net : ConvolutionalNeuralNetwork) :
  init torch_accepts shapes width depth k = inr net →
  1 ≤ length (hidden_layers net)
  ∧ length (hidden_layers net) = Z.to_nat (depth - 1)
  ∧ length (layers net) = Z.to_nat (depth + 1)
  ∧ in_channels (first_layer net) = dim (u shapes)
  ∧ out_channels (last_layer net) = dim (v shapes)
  ∧ (∀ i a b, layers net !! i = Some a → layers net !! S i = Some b →
       out_channels a = width ∧ in_channels b = width)
  ∧ Forall (λ c, kernel_size c = k ∧ padding c = (k `div` 2)%Z) (layers net).
Proof.
  intros (Hd & cls & _ & ->)%init_inr. unfold layers. simpl.
  set (n := Z.to_nat (depth - 1)).
  set (h := mkConv cls width width k (k `div` 2)).
  assert (Hn : 1 ≤ n) by lia.
  split_and!; [by rewrite length_replicate..| |done|done| |].
  - rewrite length_app, length_replicate. simpl. lia.
  - intros i a b Ha Hb. split.
    + destruct i as [|i]; simpl in Ha; [by injection Ha as <-|].
      apply lookup_app_Some in Ha as [Ha|[Hge Ha]].
      * by apply lookup_replicate in Ha as [-> _].
      * rewrite length_replicate in Hge, Ha. simpl in Hb.
        apply lookup_lt_Some in Hb.
        rewrite length_app, length_replicate in Hb. simpl in Hb.
        apply lookup_lt_Some in Ha. simpl in Ha. lia.
    + simpl in Hb. apply lookup_app_Some in Hb as [Hb|[Hge Hb]].
      * by apply lookup_replicate in Hb as [-> _].
      * rewrite length_replicate in Hge, Hb.
        destruct (i - n) as [|j] eqn:Hj; simpl in Hb; [|done].
        by injection Hb as <-.
  - apply Forall_cons. split; [done|]. apply Forall_app. split.
    + by apply Forall_replicate.
    + by apply Forall_singleton.
Qed.

(** X10. Under a network that [__init__] returns a grid axis keeps its
    length through all the convolutions of [forward] exactly when the kernel
    size is odd; with an even kernel size every convolution makes the axis
    one longer, so the output of the last layer (line 80) is [depth + 1]
    longer than the residual it is added to. *)
Theorem CNN_grid_length (shapes : OperatorShapes) (width depth k : Z)
    (net : ConvolutionalNeuralNetwork) (length_in : Z) :
  init torch_accepts shapes width depth k = inr net →
  grid_length_after net length_in
  = (length_in + (depth + 1) * (1 - k `mod` 2))%Z
  ∧ (grid_length_after net length_in = length_in ↔ (k `mod` 2 = 1)%Z).
Proof.
  intros (Hd & cls & _ & ->)%init_inr.
  assert (Hstep : ∀ (cs : list conv) (len : Z),
    Forall (λ c, kernel_size c = k ∧ padding c = (k `div` 2)%Z) cs →
    foldl (λ len c, conv_output_length c len) len cs
    = (len + Z.of_nat (length cs) * (1 - k `mod` 2))%Z).
  { intros cs. induction cs as [|c cs IH]; intros len Hcs; simpl; [lia|].
    apply Forall_cons in Hcs as [[Hk Hp] Hcs]. rewrite (IH _ Hcs).
    unfold conv_output_length. rewrite Hk, Hp.
    pose proof (Z.div_mod k 2). lia. }
  assert (Hall : grid_length_after
    {| CNN.shapes := shapes;
       first_layer := mkConv cls (dim (u shapes)) width k (k `div` 2);
       hidden_layers := replicate (Z.to_nat (depth - 1))
                          (mkConv cls width width k (k `div` 2));
       last_layer := mkConv cls width (dim (v shapes)) k (k `div` 2) |}
    length_in = (length_in + (depth + 1) * (1 - k `mod` 2))%Z).
  { unfold grid_length_after, layers. simpl CNN.first_layer.
    simpl CNN.hidden_layers. simpl CNN.last_layer. rewrite Hstep.
    - simpl. rewrite length_app, length_replicate. simpl. f_equal. f_equal. lia.
    - apply Forall_cons. split; [done|]. apply Forall_app. split.
      + by apply Forall_replicate.
      + by apply Forall_singleton. }
  split; [done|]. rewrite Hall.
  pose proof (Z.mod_pos_bound k 2). nia.
Qed.

End cnn.

Lemma CNN_init_layers_witness :
  let shapes := CNN.mkOperatorShapes
                  (CNN.mkTensorShape 32 1) (CNN.mkTensorShape 32 2)
                  (CNN.mkTensorShape 32 1) (CNN.mkTensorShape 32 2) in
  ∃ net,
    CNN.init (λ _, true) shapes 16 3 3 = inr net
    ∧ 1 ≤ length (CNN.hidden_layers net)
    ∧ length (CNN.hidden_layers net) = Z.to_nat (3 - 1)
    ∧ length (CNN.layers net) = Z.to_nat (3 + 1)
    ∧ CNN.in_channels (CNN.first_layer net) = CNN.dim (CNN.u shapes)
    ∧ CNN.out_channels (CNN.last_layer net) = CNN.dim (CNN.v shapes)
    ∧ (∀ i a b, CNN.layers net !! i = Some a → CNN.layers net !! S i = Some b →
         CNN.out_channels a = 16%Z ∧ CNN.in_channels b = 16%Z)
    ∧ Forall (λ c, CNN.kernel_size c = 3%Z ∧ CNN.padding c = (3 `div` 2)%Z)
        (CNN.layers net).
Proof.
  intros shapes. eexists. split; [reflexivity|].
  apply (CNN_init_layers (λ _, true) shapes 16 3 3). reflexivity.
Defined.

Lemma CNN_grid_length_witness :
  let shapes := CNN.mkOperatorShapes
                  (CNN.mkTensorShape 32 1) (CNN.mkTensorShape 32 2)
                  (CNN.mkTensorShape 32 1) (CNN.mkTensorShape 32 2) in
  ∃ net,
    CNN.init (λ _, true) shapes 16 3 4 = inr net
    ∧ CNN.grid_length_after net 32 = (32 + (3 + 1) * (1 - 4 `mod` 2))%Z
    ∧ (CNN.grid_length_after net 32 = 32%Z ↔ (4 `mod` 2 = 1)%Z).
Proof.
  intros shapes. eexists. split; [reflexivity|].
  apply (CNN_grid_length (λ _, true) shapes 16 3 4). reflexivity.
Defined.

(** ** The benchmark runner *)

Import Runner.

Lemma contains_spec (key : string) (d : dict) :
  contains key d = true ↔ key ∈ d.*1.
Proof. unfold contains. apply bool_decide_eq_true. Qed.

(** What [run] logs is [params_dict] followed by the defaults whose key
    [params_dict] does not have. *)
Lemma log_params_filter (config : RunConfig) (d : dict) :
  log_params config (Some d)
  = d ++ filter (λ kv, kv.1 ∉ d.*1) (defaults config).
Proof.
  unfold log_params, defaults, contains. simpl. f_equal.
  repeat (rewrite filter_cons; simpl; case_bool_decide;
          [rewrite decide_False by (by intros ?)
          |rewrite decide_True by done]).
  all: by rewrite filter_nil.
Qed.

(** X11. The parameter log of [run].  When the keys of [params_dict] are
    distinct, as the keys of a dict are, [run] logs no key twice.  It logs
    every item of [params_dict] and, for each of the keys [seed], [lr],
    [batch_size], [tol] and [max_epochs] that [params_dict] does not have,
    the value of the configuration, and nothing else: a value given in
    [params_dict] takes the place of the configured one.  Without
    [params_dict] it logs the five values of the configuration. *)
Theorem log_params_once (config : RunConfig) (d : dict) :
  NoDup (d.*1) →
  NoDup (log_params config (Some d)).*1
  ∧ (∀ k v, (k, v) ∈ log_params config (Some d)
            ↔ (k, v) ∈ d ∨ ((k ∉ d.*1) ∧ (k, v) ∈ defaults config))
  ∧ (∀ k, k ∈ (defaults config).*1 → k ∈ (log_params config (Some d)).*1)
  ∧ log_params config None = defaults config.
Proof.
  intros Hd. rewrite log_params_filter. split_and!; [| | |done].
  - rewrite fmap_app. apply NoDup_app. split_and!; [done| |].
    + intros k Hk (kv & -> & [Hnot _]%list_elem_of_filter)%list_elem_of_fmap.
      done.
    + eapply sublist_NoDup; [|apply fmap_sublist, sublist_filter].
      unfold defaults. simpl.
      refine (bool_decide_unpack _ _). vm_compute. exact I.
  - intros k v. rewrite elem_of_app, list_elem_of_filter. simpl. tauto.
  - intros k Hk. rewrite fmap_app, elem_of_app.
    destruct (decide (k ∈ d.*1)) as [Hin|Hnot]; [by left|right].
    apply list_elem_of_fmap in Hk as (kv & -> & Hkv).
    apply list_elem_of_fmap_2, list_elem_of_filter. by split.
Qed.

(** The parameters of a trial as [run_optuna.py] hands them in: the seed of
    the trial replaces the configured one. *)
Lemma log_params_once_witness :
  let config := {| seed := 0; lr := 1 # 1000; batch_size := 32; tol := 0;
                   max_epochs := 100; device := cpu |} in
  let d : dict := [("seed", PInt 7); ("width", PInt 2); ("depth", PInt 3)] in
  NoDup (log_params config (Some d)).*1
  ∧ (∀ k v, (k, v) ∈ log_params config (Some d)
            ↔ (k, v) ∈ d ∨ ((k ∉ d.*1) ∧ (k, v) ∈ defaults config))
  ∧ (∀ k, k ∈ (defaults config).*1 → k ∈ (log_params config (Some d)).*1)
  ∧ log_params config None = defaults config.
Proof.
  intros config d. apply (log_params_once config d).
  simpl. refine (bool_decide_unpack _ _). vm_compute. exact I.
Defined.

(** The hook calls in a trace of the shape [fit_returns] gives. *)
Lemma hook_calls (cs : list callback) (pre post body : list event)
    (d : Trainer.device) :
  Forall setup_event pre → Forall setup_event post → Forall epoch_event body →
  let evs := (pre ++ EOperatorTo d :: post)
             ++ (EOnTrainBegin <$> cs)
             ++ EOperatorTrain :: body
             ++ (EOnTrainEnd <$> cs)
             ++ [EOperatorTo cpu] in
  train_begin_calls evs = cs ∧ train_end_calls evs = cs.
Proof.
  intros Hpre Hpost Hbody evs. subst evs. split.
  - unfold train_begin_calls.
    rewrite !omap_app. simpl. rewrite !omap_app. simpl.
    rewrite (omap_none_Forall _ _ _ Hpre) by (by intros []).
    rewrite (omap_none_Forall _ _ _ Hpost) by (by intros []).
    rewrite (omap_none_Forall _ _ _ Hbody) by (by intros []).
    rewrite (omap_fmap_some _ EOnTrainBegin) by done.
    rewrite (omap_none_Forall
               (λ e, match e with EOnTrainEnd _ => True | _ => False end)
               _ (EOnTrainEnd <$> cs));
      [| by apply Forall_fmap, Forall_true | by intros []].
    simpl. by rewrite !(right_id_L [] (++)).
  - unfold train_end_calls.
    rewrite !omap_app. simpl. rewrite !omap_app. simpl.
    rewrite (omap_none_Forall _ _ _ Hpre) by (by intros []).
    rewrite (omap_none_Forall _ _ _ Hpost) by (by intros []).
    rewrite (omap_none_Forall _ _ _ Hbody) by (by intros []).
    rewrite (omap_fmap_some _ EOnTrainEnd) by done.
    rewrite (omap_none_Forall
               (λ e, match e with EOnTrainBegin _ => True | _ => False end)
               _ (EOnTrainBegin <$> cs));
      [| by apply Forall_fmap, Forall_true | by intros []].
    simpl. by rewrite ?(right_id_L [] (++)).
Qed.

Lemma verbose_True_is_verbose (d : Trainer.device) :
  truthy (self_verbose (Trainer.init d (PyBool true))) = true.
Proof. unfold Trainer.init. simpl. by destruct (index d). Qed.

(** X12. The training call of [run].  Whatever the device of the
    configuration is, the trainer of [run] is verbose, so when the call
    returns the list that [run] made holds its [MLFlowLogger], the
    console-logging callback and the linear scheduler over [max_epochs], in
    this order; [on_train_begin] and [on_train_end] were called once on each
    of the three, in this order; no list that existed before has changed, and
    the operator is on the CPU when [run] goes on to the final test loss. *)
Theorem run_fit_callbacks (config : RunConfig) (E : env) (test_dataset : bool)
    (w w' : world) :
  run_fit config E test_dataset w = (Ok tt, w') →
  let cs := [MLFlowLogger; PrintTrainingLoss;
             LinearLRScheduler (max_epochs config)] in
  store w' = store w ++ [cs]
  ∧ operator_device w' = cpu
  ∧ ∃ evs,
      trace w' = trace w ++ evs
      ∧ train_begin_calls evs = cs
      ∧ train_end_calls evs = cs.
Proof.
  intros Hfit cs. unfold run_fit in Hfit. cbv zeta in Hfit.
  apply bind_Ok in Hfit as (l0 & w1 & Hl0 & Hfit).
  unfold list_display in Hl0. injection Hl0 as <- <-.
  apply fit_returns in Hfit
    as (l & base & st0 & pre & post & body & Hbase & Hcase & Hst & Hdev & Htr
        & Hpre & Hpost & Hbody).
  simpl in *.
  assert (Hint : internal_callbacks (Trainer.init (device config) (PyBool true))
                   (max_epochs config) (LrBool true)
                 = [PrintTrainingLoss; LinearLRScheduler (max_epochs config)]).
  { unfold internal_callbacks. by rewrite verbose_True_is_verbose. }
  rewrite Hint in *.
  assert (Hl : l = length (store w) ∧ base = [MLFlowLogger]
               ∧ st0 = store w ++ [[MLFlowLogger]]).
  { destruct Hcase as [([= <-] & _ & ->)|(_ & _ & _ & Hempty)].
    - rewrite lookup_app_r, Nat.sub_diag in Hbase by done.
      by injection Hbase as <-.
    - specialize (Hempty _ eq_refl).
      by rewrite lookup_app_r, Nat.sub_diag in Hempty. }
  destruct Hl as (-> & -> & ->). split_and!; [|done|].
  - rewrite Hst, insert_app_r_alt, Nat.sub_diag by done. done.
  - eexists. split; [exact Htr|]. by apply hook_calls.
Qed.

Lemma run_fit_callbacks_witness :
  let config := {| seed := 0; lr := 1 # 1000; batch_size := 32; tol := 1 # 2;
                   max_epochs := 3; device := Runs.cuda 1 |} in
  let w := Runs.one_callback in
  let w' := (run_fit config Runs.two_batches true w).2 in
  let cs := [MLFlowLogger; PrintTrainingLoss; LinearLRScheduler 3] in
  store w' = store w ++ [cs]
  ∧ operator_device w' = cpu
  ∧ ∃ evs,
      trace w' = trace w ++ evs
      ∧ train_begin_calls evs = cs
      ∧ train_end_calls evs = cs.
Proof.
  intros config w w'.
  apply (run_fit_callbacks config Runs.two_batches true w w').
  vm_compute. reflexivity.
Defined.
